(** * hot-date-kitchen: shipping-rate selection, retry engine and orchestrator

    A shallow embedding of

    - [src/rules.js]          the rate selection rule,
    - [src/utils/retry.js]    the retry engine,
    - [src/index.js]          the rate-obtaining step of
                              [purchaseShippingLabelsHandler] (lines 121-201),

    together with the properties the specification states about them.

    JavaScript numbers are IEEE 754 doubles.  A finite double is given here
    by the rational it denotes ([Q]), and the arithmetic of the program
    rounds as the double arithmetic does: the result of an operation is the
    exact result rounded to the nearest double, ties to even ([Double.fl]).
    Comparisons, [Math.min] and [Math.max] are exact.  Thrown values are
    records carrying the constructor of the thrown object and its message. *)

From Stdlib Require Import List String Ascii ZArith QArith Qround Qabs Qminmax Qpower.
From Stdlib Require Import DecimalString Bool Lia Lqa.
From Stdlib Require Import Sorting.Permutation Sorting.Sorted.
From Equations Require Import Equations.
Import ListNotations.

Set Implicit Arguments.

(* ===================================================================== *)
(** ** JavaScript values, thrown errors and completions                   *)
(* ===================================================================== *)

Module Js.

(** The error constructors that occur in the program and its tests.
    [ObjectC] is the constructor of plain objects (JSONata throws those);
    [OtherErrorC name] is any further class declared as
    [class name extends Error] (the tests' [NetworkError], [TimeoutError]). *)
Inductive ErrorClass : Type :=
| ObjectC
| ErrorC
| TypeErrorC
| RangeErrorC
| NoSuitableRatesErrorC
| OtherErrorC (name : string).

Definition class_eqb (c d : ErrorClass) : bool :=
  match c, d with
  | ObjectC, ObjectC | ErrorC, ErrorC | TypeErrorC, TypeErrorC
  | RangeErrorC, RangeErrorC | NoSuitableRatesErrorC, NoSuitableRatesErrorC => true
  | OtherErrorC n, OtherErrorC m => String.eqb n m
  | _, _ => false
  end.

(** The prototype chain of an instance of each class, nearest first. *)
Definition prototype_chain (c : ErrorClass) : list ErrorClass :=
  match c with
  | ObjectC => [ObjectC]
  | ErrorC => [ErrorC; ObjectC]
  | _ => [c; ErrorC; ObjectC]
  end.

(** A thrown value: [e.constructor] and [e.message]. *)
Record Thrown : Type := mkThrown {
  constructor : ErrorClass;
  message : string
}.

(** [e instanceof C] *)
Definition instanceof (e : Thrown) (C : ErrorClass) : bool :=
  existsb (class_eqb C) (prototype_chain (constructor e)).

(** The outcome of evaluating a call: it returns a value or throws. *)
Inductive Completion (A : Type) : Type :=
| Return (a : A)
| Throw (e : Thrown).

Arguments Return {A} a.
Arguments Throw {A} e.

Definition bind {A B : Type} (c : Completion A) (k : A -> Completion B)
  : Completion B :=
  match c with
  | Return a => k a
  | Throw e => Throw e
  end.

(** A numeric option as the program receives it: a number, or a string
    that the coercion [ToNumber] turns into the number [q] (the values of
    [Bun.env] are strings).  The relational operators, [*], [Math.min] and
    [Math.max] coerce; [===] does not. *)
Inductive Numeric : Type :=
| JNumber (q : Q)
| JNumericString (q : Q).

Definition to_number (v : Numeric) : Q :=
  match v with
  | JNumber q => q
  | JNumericString q => q
  end.

(** [n === v] for a number [n]: false whenever [v] is not a number. *)
Definition strict_equal_number (n : Q) (v : Numeric) : bool :=
  match v with
  | JNumber q => Qeq_bool n q
  | JNumericString _ => false
  end.

Definition Qlt_bool (a b : Q) : bool := negb (Qle_bool b a).

End Js.

Import Js.

Notation "x <- c ;; k" := (bind c (fun x => k))
  (at level 61, c at next level, right associativity).

(* ===================================================================== *)
(** ** The arithmetic of doubles                                          *)
(* ===================================================================== *)

Module Double.

Definition two_pow (z : Z) : Q := Qpower 2 z.

(** The binary exponent of a positive [x]: the [e] with
    [2^e <= x < 2^(e+1)]. *)
Definition exponent (x : Q) : Z :=
  if Qle_bool 1 x then Z.log2 (Qfloor x)
  else (- Z.log2_up (Qceiling (/ x)))%Z.

(** The exponent of the last place of the doubles around a positive [x]:
    53 significant bits, and the spacing [2^-1074] of the subnormal numbers
    below [2^-1022]. *)
Definition quantum (x : Q) : Z := (Z.max (exponent x) (-1022) - 52)%Z.

(** The integer nearest to [x], the even one when two are as near. *)
Definition nearest_even (x : Q) : Z :=
  let f := Qfloor x in
  match Qcompare (x - inject_Z f) (1 # 2) with
  | Lt => f
  | Gt => (f + 1)%Z
  | Eq => if Z.even f then f else (f + 1)%Z
  end.

Definition round_positive (x : Q) : Q :=
  inject_Z (nearest_even (x / two_pow (quantum x))) * two_pow (quantum x).

(** The double nearest to [x], ties to even, as a fraction in lowest
    terms.  Beyond the largest double the result is [2^1024] or more, which
    stands for an infinity (see [overflows]). *)
Definition fl (x : Q) : Q :=
  Qred match Qcompare x 0 with
       | Eq => 0
       | Gt => round_positive x
       | Lt => - round_positive (- x)
       end.

(** [x] rounds to [Infinity] or [-Infinity]. *)
Definition overflows (x : Q) : bool := Qle_bool (two_pow 1024) (Qabs (fl x)).

(** [x] is a double: rounding leaves it as it is, and it is finite. *)
Definition representable (x : Q) : Prop :=
  fl x == x /\ Qabs x < two_pow 1024.

(** [a + b], [a - b], [a * b] and [a / b] on doubles. *)
Definition add (a b : Q) : Q := fl (a + b).
Definition sub (a b : Q) : Q := fl (a - b).
Definition mul (a b : Q) : Q := fl (a * b).
Definition div (a b : Q) : Q := fl (a / b).

End Double.

(* ===================================================================== *)
(** ** JSONata: [$number], the filter step and [$sort]                    *)
(* ===================================================================== *)

Module Jsonata.

Definition is_digit (c : ascii) : bool :=
  let n := nat_of_ascii c in (48 <=? n)%nat && (n <=? 57)%nat.

Definition digit_value (c : ascii) : Z := Z.of_nat (nat_of_ascii c - 48).

(** The longest run of decimal digits at the head of [s]: its value on top
    of [acc], the number of digits read on top of [n], and the rest. *)
Fixpoint take_digits (acc : Z) (n : nat) (s : string) : Z * nat * string :=
  match s with
  | String c s' =>
      if is_digit c then take_digits (10 * acc + digit_value c) (S n) s'
      else (acc, n, s)
  | EmptyString => (acc, n, s)
  end.

Definition pow10 (n : nat) : Z := Z.pow 10 (Z.of_nat n).

(** The exponent part [([Ee][-+]?[0-9]+)?$] applied to the mantissa [m]. *)
Definition exponent_part (m : Q) (s : string) : option Q :=
  match s with
  | EmptyString => Some m
  | String c s' =>
      if orb (Ascii.eqb c "E") (Ascii.eqb c "e") then
        let '(neg, s'') :=
          match s' with
          | String "-" t => (true, t)
          | String "+" t => (false, t)
          | _ => (false, s')
          end in
        match take_digits 0 0 s'' with
        | (_, O, _) => None
        | (e, _, EmptyString) =>
            Some (m * Qpower (inject_Z 10) (if neg then - e else e))%Q
        | _ => None
        end
      else None
  end.

(** The value denoted by a string that matches
    [/^-?[0-9]+(\.[0-9]+)?([Ee][-+]?[0-9]+)?$/]. *)
Definition decimal_literal (s : string) : option Q :=
  let '(neg, s1) :=
    match s with
    | String "-" t => (true, t)
    | _ => (false, s)
    end in
  match take_digits 0 0 s1 with
  | (_, O, _) => None
  | (i, _, s2) =>
      let mantissa : option (Q * string) :=
        match s2 with
        | String "." t =>
            match take_digits 0 0 t with
            | (_, O, _) => None
            | (f, nf, s3) =>
                Some (Qmake (i * pow10 nf + f) (Z.to_pos (pow10 nf)), s3)
            end
        | _ => Some (inject_Z i, s2)
        end in
      match mantissa with
      | None => None
      | Some (m, s3) => exponent_part (if neg then (- m)%Q else m) s3
      end
  end.

(** The value of the character [c] as a digit in the given radix. *)
Definition radix_digit (radix : Z) (c : ascii) : option Z :=
  let n := Z.of_nat (nat_of_ascii c) in
  let v :=
    if ((48 <=? n) && (n <=? 57))%Z then Some (n - 48)%Z
    else if ((65 <=? n) && (n <=? 70))%Z then Some (n - 55)%Z
    else if ((97 <=? n) && (n <=? 102))%Z then Some (n - 87)%Z
    else None in
  match v with
  | Some d => if (d <? radix)%Z then Some d else None
  | None => None
  end.

Fixpoint radix_digits (radix acc : Z) (s : string) : option Z :=
  match s with
  | EmptyString => Some acc
  | String c s' =>
      match radix_digit radix c with
      | Some d => radix_digits radix (radix * acc + d) s'
      | None => None
      end
  end.

(** The value denoted by a string of the forms [0[xX][0-9A-Fa-f]+],
    [0[oO][0-7]+] and [0[bB][0-1]+]. *)
Definition radix_literal (s : string) : option Q :=
  match s with
  | String "0" (String c (String d t)) =>
      let radix :=
        if orb (Ascii.eqb c "x") (Ascii.eqb c "X") then Some 16%Z
        else if orb (Ascii.eqb c "o") (Ascii.eqb c "O") then Some 8%Z
        else if orb (Ascii.eqb c "b") (Ascii.eqb c "B") then Some 2%Z
        else None in
      match radix with
      | Some r => option_map inject_Z (radix_digits r 0 (String d t))
      | None => None
      end
  | _ => None
  end.

(** The double nearest to [v], when there is a finite one. *)
Definition finite (v : Q) : option Q :=
  if Double.overflows v then None else Some (Double.fl v).

(** [$number(s)] on a string.  A string in decimal notation whose value is
    finite ([isFinite(s)]) casts to [parseFloat(s)], the double nearest to
    the value it denotes; a hexadecimal, octal or binary literal casts to
    [Number(s)]; any other string makes [$number] throw D3030 ([None]
    here).  Such a literal too large for a double casts to [Infinity],
    and a string that merely contains one to [NaN]: neither is modelled
    (they are [None] here). *)
Definition number (s : string) : option Q :=
  match decimal_literal s with
  | Some v => finite v
  | None =>
      match radix_literal s with
      | Some v => finite v
      | None => None
      end
  end.

Definition quotation_mark : string := String (ascii_of_nat 34) EmptyString.

(** The object thrown by [$number] on [value], with its message. *)
Definition D3030 (value : string) : Thrown :=
  mkThrown ObjectC
    ("Unable to cast value to a number: " ++
     quotation_mark ++ value ++ quotation_mark).

End Jsonata.

(* ===================================================================== *)
(** ** The data model                                                     *)
(* ===================================================================== *)

(** An EasyPost rate (the specification's Quote). *)
Record Quote : Type := mkQuote {
  id : string;
  carrier : string;
  service : string;
  rate : string;
  delivery_days : Z;
  currency : string
}.

(** The response of "create shipment": [rates] is [None] when the response
    has no [rates] property. *)
Record Shipment : Type := mkShipment {
  shipment_id : string;
  rates : option (list Quote);
  usps_zone : Z
}.

(* ===================================================================== *)
(** ** [src/rules.js]                                                     *)
(* ===================================================================== *)

Module Rules.

Import Jsonata.

(** The comparator of the JSONata expression:
    [function($l, $r) {$number($l.rate) > $number($r.rate)}]. *)
Definition comparator (l r : Quote) : Completion bool :=
  match number (rate l) with
  | None => Throw (D3030 (rate l))
  | Some a =>
      match number (rate r) with
      | None => Throw (D3030 (rate r))
      | Some b => Return (Qlt_bool b a)
      end
  end.

(** [merge_iter] of JSONata's [$sort]: when the comparator answers true the
    head of [right] goes first, otherwise the head of [left]. *)
Fixpoint merge (left : list Quote) : list Quote -> Completion (list Quote) :=
  fix merge_right (right : list Quote) : Completion (list Quote) :=
    match left, right with
    | [], _ => Return right
    | _, [] => Return left
    | a :: left', b :: right' =>
        match comparator a b with
        | Throw e => Throw e
        | Return true =>
            match merge_right right' with
            | Throw e => Throw e
            | Return rest => Return (b :: rest)
            end
        | Return false =>
            match merge left' right with
            | Throw e => Throw e
            | Return rest => Return (a :: rest)
            end
        end
    end.

(** [msort] of JSONata's [$sort]: split at [floor(length / 2)], sort both
    halves, merge. *)
Equations? msort (array : list Quote) : Completion (list Quote)
  by wf (List.length array) lt :=
  msort [] := Return [];
  msort [q] := Return [q];
  msort (q1 :: q2 :: qs) :=
    let array := q1 :: q2 :: qs in
    let middle := Nat.div2 (List.length array) in
    match msort (firstn middle array) with
    | Throw e => Throw e
    | Return sortedLeft =>
        match msort (skipn middle array) with
        | Throw e => Throw e
        | Return sortedRight => merge sortedLeft sortedRight
        end
    end.
Proof.
  - apply -> Nat.succ_lt_mono. apply Nat.lt_succ_r.
    etransitivity; [apply firstn_le_length | apply Nat.le_div2_diag_l].
  - rewrite length_skipn. simpl List.length.
    apply Nat.lt_succ_r, Nat.le_sub_l.
Qed.

(** The expression
    ["$[delivery_days<=2] ~> $sort(function($l, $r) {...})"]
    evaluated on [rates].  The filter step yields the quotes delivered in
    two days or less; an empty result is JSONata's [undefined] ([None]),
    which [$sort] passes through; a single match reaches [$sort] as a
    one-element array. *)
Definition evaluate (rates : option (list Quote))
  : Completion (option (list Quote)) :=
  match rates with
  | None => Return None
  | Some rs =>
      match filter (fun q => (delivery_days q <=? 2)%Z) rs with
      | [] => Return None
      | matches => sorted <- msort matches ;; Return (Some sorted)
      end
  end.

Definition NoSuitableRatesError (msg : string) : Thrown :=
  mkThrown NoSuitableRatesErrorC msg.

(** The default export of [src/rules.js].  The result is the chosen rate
    id; [Return None] would be the function resolving to [undefined]. *)
Definition rules (easypostShipment : Shipment) : Completion (option string) :=
  let rates := rates easypostShipment in
  match rates with
  | Some [] => Throw (NoSuitableRatesError "Easypost shipment returned zero rates")
  | _ =>
      let zone := usps_zone easypostShipment in
      ratesFor2DaysOrLess <- evaluate rates ;;
      match ratesFor2DaysOrLess with
      | None => Throw (NoSuitableRatesError "No rates for 2 days or less")
      | Some ratesFor2DaysOrLess =>
          let chosenRate : option string :=
            if (2 <? zone)%Z then
              let nonUSPSRates :=
                filter (fun rate => negb (String.eqb (carrier rate) "USPS"))
                       ratesFor2DaysOrLess in
              option_map id (hd_error nonUSPSRates)
            else
              option_map id (hd_error ratesFor2DaysOrLess) in
          match chosenRate with
          | None => Throw (NoSuitableRatesError "chosenRate: undefined")
          | Some _ => Return chosenRate
          end
      end
  end.

End Rules.

(* ===================================================================== *)
(** ** [src/utils/retry.js]                                               *)
(* ===================================================================== *)

Module Retry.

(** The [options] argument; [None] is an omitted (undefined) property. *)
Record Options : Type := mkOptions {
  o_backoff : option bool;
  o_backoffMultiplier : option Numeric;
  o_retryInterval : option Numeric;
  o_maxRetries : option Numeric;
  o_jitter : option Numeric;
  o_maxDelay : option Numeric;
  o_timeout : option Numeric
}.

(** [options = {}] *)
Definition no_options : Options :=
  mkOptions None None None None None None None.

Definition default {A : Type} (d : A) (o : option A) : A :=
  match o with
  | Some a => a
  | None => d
  end.

(** The destructuring of [options] with its defaults. *)
Definition backoff (o : Options) : bool := default true (o_backoff o).
Definition backoffMultiplier (o : Options) : Numeric :=
  default (JNumber 2) (o_backoffMultiplier o).
Definition retryInterval (o : Options) : Numeric :=
  default (JNumber 1000) (o_retryInterval o).
Definition maxRetries (o : Options) : Numeric :=
  default (JNumber 3) (o_maxRetries o).
Definition jitter (o : Options) : Numeric := default (JNumber 1) (o_jitter o).
Definition maxDelay (o : Options) : Numeric :=
  default (JNumber 30000) (o_maxDelay o).
Definition timeout (o : Options) : Numeric := default (JNumber 0) (o_timeout o).

(** What the engine cannot decide by itself: the successive results of
    [Math.random()], for each invocation of the operation whether the
    timeout timer (when armed) settles before the operation does, and the
    results of [Math.pow], which the language leaves to the implementation
    but for some arguments (an approximation of the power; [Math_pow b k]
    is [Math.pow(b, k)] for an exponent [k] other than 0). *)
Record Environment : Type := mkEnvironment {
  random : nat -> Q;
  timer_first : nat -> bool;
  Math_pow : Q -> Z -> Q
}.

(** The state threaded through a call of [retry]: the state [user] the
    operation works on, the number of invocations of the operation so far,
    the delays handed to [setTimeout] between attempts (oldest first) and
    the number of [Math.random()] draws so far. *)
Record World (St : Type) : Type := mkWorld {
  user : St;
  invocations : nat;
  waits : list Q;
  draws : nat
}.

(** The [asyncFn] argument and the [ErrorTypes] argument as passed. *)
Inductive FunctionArg (St R : Type) : Type :=
| Callable (f : St -> Completion (option R) * St)
| NotCallable.

Inductive ErrorTypesArg : Type :=
| ErrorTypesArray (types : list ErrorClass)
| NotAnArray.

Arguments NotCallable {St R}.

Definition of_nat (n : nat) : Q := inject_Z (Z.of_nat n).

Definition timed_out : Thrown := mkThrown ErrorC "Operation timed out".

Section Engine.

Variables St R : Type.
Variable env : Environment.
Variable asyncFn : St -> Completion (option R) * St.
Variable ErrorTypes : list ErrorClass.
Variable options : Options.

(** The [try] block: one invocation of the operation, raced against the
    timer when [timeout > 0]. *)
Definition attempt_once (w : World St) : Completion (option R) * World St :=
  let '(result, st) := asyncFn (user w) in
  let w' := mkWorld st (S (invocations w)) (waits w) (draws w) in
  if Qlt_bool 0 (to_number (timeout options)) && timer_first env (invocations w)
  then (Throw timed_out, w')
  else (result, w').

(** [ErrorTypes.length === 0 || ErrorTypes.some(ErrorType =>
      error instanceof ErrorType || error.constructor === ErrorType)] *)
Definition shouldRetry (error : Thrown) : bool :=
  (List.length ErrorTypes =? 0)%nat ||
  existsb (fun ErrorType =>
             instanceof error ErrorType || class_eqb (constructor error) ErrorType)
          ErrorTypes.

(** [Math.pow(base, exponent)]: 1 when the exponent is 0, as the language
    prescribes, and otherwise what the implementation answers. *)
Definition power (base : Q) (exponent : Z) : Q :=
  if (exponent =? 0)%Z then 1 else Math_pow env base exponent.

(** The delay before retry number [attempt] (counted from 1), before
    jitter: exponential
    ([retryInterval * Math.pow(backoffMultiplier, attempt - 1)]) or linear,
    capped by [maxDelay]. *)
Definition capped_delay (attempt : nat) : Q :=
  let delay :=
    if backoff options then
      Double.mul (to_number (retryInterval options))
                 (power (to_number (backoffMultiplier options))
                        (Z.of_nat attempt - 1))
    else to_number (retryInterval options) in
  Qmin delay (to_number (maxDelay options)).

(** [jitterAmount = delay * jitter * Math.random()] and then
    [delay + jitterAmount - (delay * jitter) / 2], each operation on
    doubles. *)
Definition with_jitter (delay u : Q) : Q :=
  let jitterAmount :=
    Double.mul (Double.mul delay (to_number (jitter options))) u in
  Double.sub (Double.add delay jitterAmount)
             (Double.div (Double.mul delay (to_number (jitter options))) 2).

(** Lines 78-100 of the loop body: compute the delay before retry number
    [attempt], apply jitter when [jitter > 0] (one [Math.random()] draw),
    and wait [Math.max(0, delay)]. *)
Definition wait_before_retry (attempt : nat) (w : World St) : World St :=
  let delay := capped_delay attempt in
  let '(delay, w) :=
    if Qlt_bool 0 (to_number (jitter options)) then
      (with_jitter delay (random env (draws w)),
       mkWorld (user w) (invocations w) (waits w) (S (draws w)))
    else (delay, w) in
  mkWorld (user w) (invocations w) (waits w ++ [Qmax 0 delay]) (draws w).

(** The [while (attempt <= maxRetries)] loop.  [fuel] bounds the number of
    iterations; [None] means it did not suffice. *)
Fixpoint loop (fuel attempt : nat) (w : World St)
  : option (Completion (option R) * World St) :=
  if Qle_bool (of_nat attempt) (to_number (maxRetries options)) then
    match fuel with
    | O => None
    | S fuel' =>
        match attempt_once w with
        | (Return result, w) => Some (Return result, w)
        | (Throw error, w) =>
            if strict_equal_number (of_nat attempt) (maxRetries options) then
              Some (Throw error, w)
            else if negb (shouldRetry error) then
              Some (Throw error, w)
            else
              let attempt := S attempt in
              loop fuel' attempt (wait_before_retry attempt w)
        end
    end
  else Some (Return None, w).

(** The time waited before retry number [attempt] when [draw] results of
    [Math.random()] have been consumed so far. *)
Definition waited (attempt draw : nat) : Q :=
  Qmax 0 (if Qlt_bool 0 (to_number (jitter options))
          then with_jitter (capped_delay attempt) (random env draw)
          else capped_delay attempt).

End Engine.

Definition TypeError (msg : string) : Thrown := mkThrown TypeErrorC msg.
Definition RangeError (msg : string) : Thrown := mkThrown RangeErrorC msg.

(** Iterations the loop can need: one per [attempt] in [0 .. maxRetries]. *)
Definition iterations (options : Options) : nat :=
  S (Z.to_nat (Qfloor (to_number (maxRetries options)))).

(** [retry(asyncFn, ErrorTypes, options)] *)
Definition retry {St R : Type} (env : Environment)
    (asyncFn : FunctionArg St R) (ErrorTypes : ErrorTypesArg)
    (options : Options) (w : World St)
  : option (Completion (option R) * World St) :=
  match asyncFn with
  | NotCallable => Some (Throw (TypeError "asyncFn must be a function"), w)
  | Callable f =>
      match ErrorTypes with
      | NotAnArray => Some (Throw (TypeError "ErrorTypes must be an array"), w)
      | ErrorTypesArray types =>
          if Qlt_bool (to_number (jitter options)) 0
             || Qlt_bool 1 (to_number (jitter options)) then
            Some (Throw (RangeError "jitter must be between 0 and 1.0"), w)
          else if Qlt_bool (to_number (maxRetries options)) 0 then
            Some (Throw (RangeError "maxRetries must be non-negative"), w)
          else if Qlt_bool (to_number (retryInterval options)) 0 then
            Some (Throw (RangeError "retryInterval must be non-negative"), w)
          else
            loop env f types options (iterations options) 0 w
      end
  end.

End Retry.

(* ===================================================================== *)
(** ** [src/index.js]: obtaining a rate for one fulfillment order          *)
(* ===================================================================== *)

Module Handler.

Import Rules Retry.

(** The variables of [Bun.env] read by lines 121-201.  The values of
    [Bun.env] are strings: a numeric variable that is set is given by the
    number its string converts to; [None] is an unset variable. *)
Record BunEnv : Type := mkBunEnv {
  NODE_ENV : option string;
  SHIPPING_RATE_SEARCH_RETRIES : option Q;
  SHIPPING_RATE_SEARCH_RETRY_INTERVAL : option Q;
  SEND_LIVE_EMAILS : option string;
  SHOPIFY_ADMIN_BASE_URL : string;
  FULFILLMENTS_FROM_EMAIL : string;
  SHOP_OWNER_EMAIL : string;
  TEST_TO_EMAIL : string
}.

(** What the step reads of [order]: its name and the result of
    [extractNumberFromShopifyGuid(order.id)]. *)
Record Order : Type := mkOrder {
  order_name : string;
  order_number : string
}.

Record EmailMessage : Type := mkEmailMessage {
  from : string;
  to : string;
  subject : string;
  text : string
}.

(** The notification is handed to the mail client, or is only logged. *)
Inductive Effect : Type :=
| SendMail (m : EmailMessage)
| LogWouldHaveSent (m : EmailMessage).

(** The variables the closure passed to [retry] works on: the number of
    calls of [easypost.createShipment] so far and the captured variable
    [shipmentResponse] ([None] is [undefined]). *)
Record Captured : Type := mkCaptured {
  createShipment_calls : nat;
  shipmentResponse : option Shipment
}.

(** The arguments [easypost.buyShipment] is called with. *)
Record BuyCall : Type := mkBuyCall {
  buy_shipment_id : string;
  buy_rate_id : option string
}.

Record StepResult : Type := mkStepResult {
  outcome : Completion BuyCall;
  effects : list Effect;
  final : World Captured
}.

Definition nl : string := String (ascii_of_nat 10) EmptyString.

Definition string_of_Z (z : Z) : string := NilZero.string_of_int (Z.to_int z).

(** [`${rate.carrier} ${rate.service}: $${rate.rate} (${rate.delivery_days} days)`] *)
Definition rate_line (r : Quote) : string :=
  (carrier r ++ " " ++ service r ++ ": $" ++ rate r ++
   " (" ++ string_of_Z (delivery_days r) ++ " days)")%string.

Section Step.

Variable bun : BunEnv.
Variable env : Environment.
(** [easypost k]: what the [k]-th call of [easypost.createShipment]
    (counted from 0) settles to. *)
Variable easypost : nat -> Completion Shipment.
Variable order : Order.
(** What the awaited [mailClient.sendMail(emailMessage)] settles to. *)
Variable sendMail : EmailMessage -> Completion unit.

(** The closure passed to [retry] (lines 125-143). *)
Definition quote_and_select (c : Captured) : Completion (option string) * Captured :=
  match easypost (createShipment_calls c) with
  | Throw e => (Throw e, mkCaptured (S (createShipment_calls c)) (shipmentResponse c))
  | Return response =>
      let c' := mkCaptured (S (createShipment_calls c)) (Some response) in
      match rates response with
      | None =>
          (Throw (mkThrown ErrorC "Shipment response from Easypost returned no rates"), c')
      | Some _ => (rules response, c')
      end
  end.

(** The third argument of the call of [retry] (lines 145-149). *)
Definition retry_options : Options :=
  mkOptions (Some false) None
            (option_map JNumericString (SHIPPING_RATE_SEARCH_RETRY_INTERVAL bun))
            (option_map JNumericString (SHIPPING_RATE_SEARCH_RETRIES bun))
            None None None.

Definition production : bool :=
  match NODE_ENV bun with
  | Some v => String.eqb v "production"
  | None => false
  end.

(** The message of lines 154-180. *)
Definition emailMessage (shipmentResponse : option Shipment) (e : Thrown)
  : EmailMessage :=
  let shopifyOrderUrl :=
    (SHOPIFY_ADMIN_BASE_URL bun ++ "/orders/" ++ order_number order)%string in
  let rejected :=
    match shipmentResponse with
    | Some response =>
        match rates response with
        | Some rs => String.concat nl (map rate_line rs)
        | None => "No rates available"%string
        end
    | None => "No rates available"%string
    end in
  mkEmailMessage
    (FULFILLMENTS_FROM_EMAIL bun)
    (if production then SHOP_OWNER_EMAIL bun else TEST_TO_EMAIL bun)
    ("Order " ++ order_name order ++ " - No suitable shipping rate found")%string
    ("Order: " ++ order_name order ++ nl ++
     "Available rates that were rejected:" ++ nl ++
     rejected ++ nl ++ nl ++
     "View order in Shopify Admin: " ++ shopifyOrderUrl ++ nl ++ nl ++
     "Error: " ++ message e)%string.

(** Lines 182-190: [if (Bun.env.SEND_LIVE_EMAILS === "true")]. *)
Definition notify (m : EmailMessage) : Effect :=
  match SEND_LIVE_EMAILS bun with
  | Some v => if String.eqb v "true" then SendMail m else LogWouldHaveSent m
  | None => LogWouldHaveSent m
  end.

Definition undefined_is_not_an_object (expr : string) : Thrown :=
  mkThrown TypeErrorC
    ("undefined is not an object (evaluating '" ++ expr ++ "')")%string.

(** Lines 197-201: the arguments of [easypost.buyShipment] are evaluated
    left to right; reading a property of [undefined] throws, and the
    property [id] of a string is [undefined]. *)
Definition buy (shipmentResponse : option Shipment) (chosenRate : option string)
  : Completion BuyCall :=
  match shipmentResponse with
  | None => Throw (undefined_is_not_an_object "shipmentResponse.id")
  | Some response =>
      match chosenRate with
      | None => Throw (undefined_is_not_an_object "chosenRate.id")
      | Some _ => Return (mkBuyCall (shipment_id response) None)
      end
  end.

Definition start : World Captured := mkWorld (mkCaptured 0 None) 0 [] 0.

(** The call of [retry] of lines 124-150. *)
Definition search : option (Completion (option string) * World Captured) :=
  retry env (Callable quote_and_select)
        (ErrorTypesArray [NoSuitableRatesErrorC]) retry_options start.

(** Lines 182-193: the message is handed to the mail client and awaited,
    or only logged; then [e] is thrown again.  A rejection of the mail
    client is not caught: it leaves the [catch] block in place of [e]. *)
Definition escalate (m : EmailMessage) (e : Thrown) : Completion BuyCall :=
  match notify m with
  | SendMail m =>
      match sendMail m with
      | Return _ => Throw e
      | Throw mail_error => Throw mail_error
      end
  | LogWouldHaveSent _ => Throw e
  end.

(** Lines 121-201, up to the call of [easypost.buyShipment]. *)
Definition obtain_rate : option StepResult :=
  match search with
  | None => None
  | Some (Return chosenRate, w) =>
      Some (mkStepResult (buy (shipmentResponse (user w)) chosenRate) [] w)
  | Some (Throw e, w) =>
      if instanceof e NoSuitableRatesErrorC then
        let m := emailMessage (shipmentResponse (user w)) e in
        Some (mkStepResult (escalate m e) [notify m] w)
      else
        Some (mkStepResult (buy (shipmentResponse (user w)) None) [] w)
  end.

End Step.

End Handler.

(* ===================================================================== *)
(** ** Vocabulary of the statements and fixtures                          *)
(* ===================================================================== *)

Module RulesSpec.

Import Jsonata Rules.

(** Decimal notation, in which the data model gives the rate of a quote.
    It is defined here apart from the parser of [$number], to say what a
    rate string denotes. *)

(** The value of a decimal digit. *)
Definition digit (c : ascii) : option Z :=
  match c with
  | "0" => Some 0%Z | "1" => Some 1%Z | "2" => Some 2%Z | "3" => Some 3%Z
  | "4" => Some 4%Z | "5" => Some 5%Z | "6" => Some 6%Z | "7" => Some 7%Z
  | "8" => Some 8%Z | "9" => Some 9%Z
  | _ => None
  end%char.

(** The digits of a string made of digits only. *)
Fixpoint digits (s : string) : option (list Z) :=
  match s with
  | EmptyString => Some []
  | String c s' =>
      match digit c, digits s' with
      | Some d, Some ds => Some (d :: ds)
      | _, _ => None
      end
  end.

(** The number a sequence of digits denotes, the most significant digit
    first: each digit counts for its power of ten. *)
Fixpoint numeral (ds : list Z) : Z :=
  match ds with
  | [] => 0
  | d :: rest => d * 10 ^ Z.of_nat (List.length rest) + numeral rest
  end.

(** The parts of a string before and after its first point. *)
Fixpoint split_at_point (s : string) : string * option string :=
  match s with
  | EmptyString => (EmptyString, None)
  | String c s' =>
      if Ascii.eqb c "." then (EmptyString, Some s')
      else let '(whole, fraction) := split_at_point s' in
           (String c whole, fraction)
  end.

(** A string at which [take_digits] stops: it is empty or starts with
    another character than a digit. *)
Definition stops (rest : string) : Prop :=
  match rest with
  | EmptyString => True
  | String c _ => is_digit c = false
  end.

(** The value of a decimal numeral: digits, or digits, a point and
    digits. *)
Definition decimal_value (s : string) : option Q :=
  match split_at_point s with
  | (whole, None) =>
      match digits whole with
      | Some (i0 :: i) => Some (inject_Z (numeral (i0 :: i)))
      | _ => None
      end
  | (whole, Some fraction) =>
      match digits whole, digits fraction with
      | Some (i0 :: i), Some (f0 :: f) =>
          Some (inject_Z (numeral (i0 :: i)) +
                inject_Z (numeral (f0 :: f)) /
                inject_Z (10 ^ Z.of_nat (List.length (f0 :: f))))%Q
      | _, _ => None
      end
  end.

(** The quotes whose rate is a decimal numeral within the range of the
    doubles. *)
Definition priced (q : Quote) : Prop :=
  exists v, decimal_value (rate q) = Some v /\ Double.overflows v = false.

(** The amount a quote asks for: the value of its rate. *)
Definition amount (q : Quote) : Q :=
  match decimal_value (rate q) with
  | Some v => v
  | None => 0
  end.

(** The price of a quote as a number of the program: the double nearest
    to the amount. *)
Definition price (q : Quote) : Q := Double.fl (amount q).

Definition cheaper_eq (a b : Quote) : Prop := (price a <= price b)%Q.

(** Delivered in two days or less and, beyond zone 2, not carried by USPS. *)
Definition eligible (zone : Z) (q : Quote) : Prop :=
  (delivery_days q <= 2)%Z /\ ((2 < zone)%Z -> carrier q <> "USPS"%string).

Definition within_two_days (q : Quote) : bool := (delivery_days q <=? 2)%Z.
Definition not_usps (q : Quote) : bool := negb (String.eqb (carrier q) "USPS").

(** The quotes among which [rules] picks the head, given the sorted
    two-day quotes. *)
Definition candidates (zone : Z) (sorted : list Quote) : list Quote :=
  if (2 <? zone)%Z then filter not_usps sorted else sorted.

(** The quotes of the specification's example. *)
Definition example_quotes : list Quote :=
  [mkQuote "rate_1" "USPS" "Priority" "1.00" 2 "USD";
   mkQuote "rate_2" "UPS" "Ground" "3.00" 1 "USD"].

(** Quotes in no particular order; the fifth takes four days. *)
Definition unsorted_quotes : list Quote :=
  [mkQuote "rate_1" "UPS" "Next Day Air" "12.50" 1 "USD";
   mkQuote "rate_2" "FedEx" "2Day" "9.99" 2 "USD";
   mkQuote "rate_3" "USPS" "Express" "3.10" 1 "USD";
   mkQuote "rate_4" "UPS" "2nd Day Air" "9.5" 2 "USD";
   mkQuote "rate_5" "UPS" "Ground" "2.00" 4 "USD"].

End RulesSpec.

Module RetrySpec.

Import Retry.

(** A configuration that passes the validation of [retry]. *)
Definition valid_options (options : Options) : Prop :=
  (0 <= to_number (jitter options) <= 1)%Q /\
  (0 <= to_number (maxRetries options))%Q /\
  (0 <= to_number (retryInterval options))%Q.

(** A call of [retry] that the validation rejects. *)
Definition invalid_configuration {St R : Type}
    (asyncFn : FunctionArg St R) (ErrorTypes : ErrorTypesArg)
    (options : Options) : Prop :=
  asyncFn = NotCallable \/ ErrorTypes = NotAnArray \/
  (to_number (jitter options) < 0)%Q \/ (1 < to_number (jitter options))%Q \/
  (to_number (maxRetries options) < 0)%Q \/
  (to_number (retryInterval options) < 0)%Q.

(** What the [try] block of [retry] yields when the operation is invoked
    on the state [u] after [done] earlier invocations. *)
Definition attempt_outcome {St R : Type} (env : Environment)
    (f : St -> Completion (option R) * St) (options : Options)
    (u : St) (done : nat) : Completion (option R) :=
  fst (attempt_once env f options (mkWorld u done [] 0)).

(** The state the operation leaves after [j] invocations from [u]. *)
Definition state_after {St R : Type} (f : St -> Completion (option R) * St)
    (j : nat) (u : St) : St :=
  Nat.iter j (fun u' => snd (f u')) u.

(** Fixtures after [tests/retry.test.js]. *)
Definition NetworkError : ErrorClass := OtherErrorC "NetworkError".
Definition TimeoutError : ErrorClass := OtherErrorC "TimeoutError".

(** [async () => { attempt++; throw new NetworkError('Always fails') }] *)
Definition alwaysFailingFunction (attempt : nat)
  : Completion (option string) * nat :=
  (Throw (mkThrown NetworkError "Always fails"), S attempt).

(** The error of the call number [k]: [new NetworkError(`fail ${k}`)]. *)
Definition numbered_failure (k : nat) : Thrown :=
  mkThrown NetworkError ("fail " ++ NilZero.string_of_uint (Nat.to_uint k)).

(** [async () => { attempt++; throw new NetworkError(`fail ${attempt}`) }] *)
Definition numberedFailingFunction (attempt : nat)
  : Completion (option string) * nat :=
  (Throw (numbered_failure (S attempt)), S attempt).

(** [async () => { throw new TimeoutError('Request timed out') }] *)
Definition timeoutFunction (attempt : nat) : Completion (option string) * nat :=
  (Throw (mkThrown TimeoutError "Request timed out"), attempt).

(** A [Math.pow] that answers the double nearest to the power. *)
Definition nearest_power (b : Q) (k : Z) : Q := Double.fl (b ^ k).

(** [Math.random()] always answers a quarter; no timer fires first. *)
Definition quarter : Environment :=
  mkEnvironment (fun _ => 1 # 4) (fun _ => false) nearest_power.

Definition fresh : World nat := mkWorld 0%nat 0 [] 0.

(** [{ maxRetries: 2, retryInterval: 10 }] *)
Definition two_retries : Options :=
  mkOptions None None (Some (JNumber 10)) (Some (JNumber 2)) None None None.

(** [{ retryInterval: 30000, maxRetries: 1 }] *)
Definition thirty_seconds : Options :=
  mkOptions None None (Some (JNumber 30000)) (Some (JNumber 1)) None None None.

(** [Math.random()] always answers the largest double below 1. *)
Definition almost_one : Environment :=
  mkEnvironment (fun _ => 1 - Double.two_pow (-53)) (fun _ => false)
                nearest_power.

(** The double nearest to a tenth. *)
Definition tenth : Q := Double.fl (1 # 10).

(** [{ backoff: true, backoffMultiplier: 3, retryInterval: 0.1,
       maxRetries: 2, jitter: 0 }] *)
Definition tenths : Options :=
  mkOptions (Some true) (Some (JNumber 3)) (Some (JNumber tenth))
            (Some (JNumber 2)) (Some (JNumber 0)) None None.

(** [{ jitter: 2 }] *)
Definition jitter_two : Options :=
  mkOptions None None None None (Some (JNumber 2)) None None.

(** [{ backoff: true, backoffMultiplier: 2, retryInterval: 10,
       maxRetries: 3, jitter: 0, maxDelay: 30 }] *)
Definition capped_backoff : Options :=
  mkOptions (Some true) (Some (JNumber 2)) (Some (JNumber 10))
            (Some (JNumber 3)) (Some (JNumber 0)) (Some (JNumber 30)) None.

End RetrySpec.

Module HandlerSpec.

Import Rules Retry Handler.

(** Fixtures: no variable of [Bun.env] is set but the addresses. *)
Definition bare_env : BunEnv :=
  mkBunEnv None None None None "https://admin.shopify.example"
           "fulfillment@shop.example" "owner@shop.example" "test@shop.example".

(** The same with [SHIPPING_RATE_SEARCH_RETRIES=1]. *)
Definition one_retry_env : BunEnv :=
  mkBunEnv None (Some 1) None None "https://admin.shopify.example"
           "fulfillment@shop.example" "owner@shop.example" "test@shop.example".

Definition an_order : Order := mkOrder "#1001" "1001".

(** A response whose only rate takes five days. *)
Definition five_day_response : Shipment :=
  mkShipment "shp_1"
    (Some [mkQuote "rate_1" "FedEx" "Ground" "5.00" 5 "USD"]) 4.

(** [easypost.createShipment] always answers [five_day_response]. *)
Definition only_slow_rates (k : nat) : Completion Shipment :=
  Return five_day_response.

Definition connection_reset : Thrown := mkThrown ErrorC "ECONNRESET".

(** What [rules] throws on [five_day_response]. *)
Definition no_two_day_rates : Thrown :=
  mkThrown NoSuitableRatesErrorC "No rates for 2 days or less".

(** [easypost.createShipment] always rejects with a network error. *)
Definition unreachable_api (k : nat) : Completion Shipment :=
  Throw connection_reset.

Definition steady : Environment :=
  mkEnvironment (fun _ => 1 # 2) (fun _ => false) RetrySpec.nearest_power.

(** A mail client that accepts every message, and one that is down. *)
Definition delivers (m : EmailMessage) : Completion unit := Return tt.

Definition connection_refused : Thrown := mkThrown ErrorC "ECONNREFUSED".

Definition mail_down (m : EmailMessage) : Completion unit :=
  Throw connection_refused.

(** [bare_env] with [SEND_LIVE_EMAILS=true]. *)
Definition live_env : BunEnv :=
  mkBunEnv None None None (Some "true"%string) "https://admin.shopify.example"
           "fulfillment@shop.example" "owner@shop.example" "test@shop.example".

(** The escalation as the specification states it: whenever the search
    ends on a [NoSuitableRatesError], the notification is sent and the
    condition is raised to the caller. *)
Definition escalation_as_stated (bun : BunEnv) (env : Environment)
    (easypost : nat -> Completion Shipment) (order : Order)
    (sendMail : EmailMessage -> Completion unit) : Prop :=
  forall e w,
    search bun env easypost = Some (Throw e, w) ->
    instanceof e NoSuitableRatesErrorC = true ->
    exists r m,
      obtain_rate bun env easypost order sendMail = Some r /\
      In (SendMail m) (effects r) /\
      outcome r = Throw e.

(** The budget of [n] retries is used up on [NoSuitableRatesError]: each of
    the first [n + 1] calls of [easypost.createShipment] answers a response
    with rates, [response j], on which [rules] throws the
    [NoSuitableRatesError] [failure j]. *)
Definition exhausted_on_no_suitable_rates
    (easypost : nat -> Completion Shipment) (n : nat)
    (response : nat -> Shipment) (failure : nat -> Thrown) : Prop :=
  forall j, (j <= n)%nat ->
    easypost j = Return (response j) /\
    rates (response j) <> None /\
    rules (response j) = Throw (failure j) /\
    instanceof (failure j) NoSuitableRatesErrorC = true.

End HandlerSpec.

(* ===================================================================== *)
(** ** [src/index.js], lines 100-115: the weight of the parcel             *)
(* ===================================================================== *)

Module Parcel.

(** [item.weight] of a line item of the fulfillment order. *)
Record LineItem : Type := mkLineItem {
  weight_unit : string;
  weight_value : Q
}.

Definition unsupported_unit (unit : string) : Thrown :=
  mkThrown ErrorC
    ("Item has weight specified in units " ++ unit ++
     ". Please update the product's weight in the Admin in either pounds or ounces.")%string.

(** [lineItems.nodes.reduce((acc, item) => ..., 0)]: pounds count
    sixteen ounces, ounces count as they are, any other unit throws; the
    sum is accumulated in doubles. *)
Fixpoint reduce (acc : Q) (items : list LineItem) : Completion Q :=
  match items with
  | [] => Return acc
  | item :: rest =>
      if String.eqb (weight_unit item) "POUNDS" then
        reduce (Double.add acc (Double.mul (weight_value item) 16)) rest
      else if String.eqb (weight_unit item) "OUNCES" then
        reduce (Double.add acc (weight_value item)) rest
      else Throw (unsupported_unit (weight_unit item))
  end.

(** The [weight] property of [shipment.parcel]. *)
Definition weight (items : list LineItem) : Completion Q := reduce 0 items.

End Parcel.

(* ===================================================================== *)
(** ** [utils/webhook-validation.js] and the webhook route of [src/index.js] *)
(* ===================================================================== *)

Module Webhook.

(** The answers of the route: 401 "Unauthorized" and 200 "ok". *)
Inductive Response : Type :=
| Unauthorized
| Ok.

(** [crypto.timingSafeEqual] on two buffers, given as their bytes: buffers
    of different byte length make it throw. *)
Definition timingSafeEqual (a b : string) : Completion bool :=
  if (String.length a =? String.length b)%nat then Return (String.eqb a b)
  else Throw (mkThrown RangeErrorC "Input buffers must have the same byte length").

Section Route.

(** The payload type, [JSON.parse] on the raw body, and the keyed hash
    [new Bun.CryptoHasher('sha256', secret).update(body).digest('base64')];
    the secret is [None] when [SHOPIFY_WEBHOOK_SECRET] is unset. *)
Variable Body : Type.
Variable JSON_parse : string -> Completion Body.
Variable digest : option string -> string -> string.

Definition validateShopifyWebhookHmac
    (hmacHeader bodyBuffer : string) (webhookSecret : option string)
  : Completion bool :=
  timingSafeEqual (digest webhookSecret bodyBuffer) hmacHeader.

(** The [POST] handler of ["/hooks/purchase-shipping-labels"].  The
    second component is the payload [purchaseShippingLabelsHandler] was
    started with, if it was started; the handler is not awaited. *)
Definition POST (production : bool) (hmacHeader : option string)
    (webhookSecret : option string) (rawBody : string)
  : Completion (Response * option Body) :=
  let start :=
    body <- JSON_parse rawBody ;; Return (Ok, Some body) in
  if production then
    match hmacHeader with
    | None => Return (Unauthorized, None)
    | Some EmptyString => Return (Unauthorized, None)
    | Some hmacHeader =>
        valid <- validateShopifyWebhookHmac hmacHeader rawBody webhookSecret ;;
        if negb valid then Return (Unauthorized, None) else start
    end
  else start.

End Route.

End Webhook.

(* ===================================================================== *)
(** ** Further vocabulary and fixtures                                    *)
(* ===================================================================== *)

Module MoreSpec.

Import Jsonata Rules Retry Handler Parcel RulesSpec RetrySpec HandlerSpec.

(** [eligible] as a test. *)
Definition eligibleb (zone : Z) (q : Quote) : bool :=
  within_two_days q && (if (2 <? zone)%Z then not_usps q else true).

(** The quotes whose price is [p]. *)
Definition priced_at (p : Q) (q : Quote) : bool := Qeq_bool (price q) p.

(** Two rates that are one double, between a slow quote and a dear one. *)
Definition rounding_tie : list Quote :=
  [mkQuote "rate_slow" "UPS" "Ground" "0.05" 4 "USD";
   mkQuote "rate_a" "UPS" "Next Day" "0.10000000000000000001" 1 "USD";
   mkQuote "rate_b" "FedEx" "Overnight" "0.1" 2 "USD";
   mkQuote "rate_c" "USPS" "Express" "9.00" 1 "USD"].

(** The first test of [tests/retry.test.js]:
    [async () => { attempt++; if (attempt < 3) throw new NetworkError(...);
                   return 'Success!' }] *)
Definition failingFunction (attempt : nat) : Completion (option string) * nat :=
  (if (S attempt <? 3)%nat
   then Throw (mkThrown NetworkError "Network failed")
   else Return (Some "Success!"%string),
   S attempt).

(** [async () => 'Always succeeds'] *)
Definition successFunction (attempt : nat) : Completion (option string) * nat :=
  (Return (Some "Always succeeds"%string), S attempt).

(** [{ maxRetries: 3, retryInterval: 10, backoff: false, jitter: 0 }] *)
Definition linear_retries : Options :=
  mkOptions (Some false) None (Some (JNumber 10)) (Some (JNumber 3))
            (Some (JNumber 0)) None None.

(** [{ maxRetries: 3, retryInterval: 10, timeout: 50 }] *)
Definition with_timeout : Options :=
  mkOptions None None (Some (JNumber 10)) (Some (JNumber 3)) None None
            (Some (JNumber 50)).

(** The timer fires before the first invocation settles. *)
Definition impatient : Environment :=
  mkEnvironment (fun _ => 1 # 4) (fun k => (k =? 0)%nat) nearest_power.

(** The ounces a line item weighs, and the items [reduce] accepts. *)
Definition ounces (item : LineItem) : Q :=
  if String.eqb (weight_unit item) "POUNDS" then (weight_value item * 16)%Q
  else weight_value item.

Definition supported (item : LineItem) : Prop :=
  weight_unit item = "POUNDS"%string \/ weight_unit item = "OUNCES"%string.

(** The items that weigh a whole number of their unit. *)
Definition whole (item : LineItem) : Prop :=
  exists z : Z, (0 <= z)%Z /\ (weight_value item == inject_Z z)%Q.

Fixpoint total_ounces (items : list LineItem) : Q :=
  match items with
  | [] => 0
  | item :: rest => (ounces item + total_ounces rest)%Q
  end.

(** Two pounds, then eight ounces. *)
Definition two_pounds_eight_ounces : list LineItem :=
  [mkLineItem "POUNDS" 2; mkLineItem "OUNCES" 8].

(** A keyed hash for the examples: it answers the secret followed by the
    body. *)
Definition toy_digest (secret : option string) (body : string) : string :=
  (match secret with Some k => k | None => "" end ++ body)%string.

(** A parser for the examples: every body parses to itself. *)
Definition toy_parse (rawBody : string) : Completion string := Return rawBody.

(** A response with two cheap rates. *)
Definition two_day_response : Shipment :=
  mkShipment "shp_2" (Some example_quotes) 3.

(** [easypost.createShipment] answers slow rates first, then good ones. *)
Definition second_time_lucky (k : nat) : Completion Shipment :=
  if (k =? 0)%nat then Return five_day_response else Return two_day_response.

End MoreSpec.

(* ===================================================================== *)
(** ** Facts about the comparison of numbers                              *)
(* ===================================================================== *)

Module JsFacts.

Lemma Qlt_bool_iff a b : Qlt_bool a b = true <-> (a < b)%Q.
Proof.
  unfold Qlt_bool. rewrite negb_true_iff. split.
  - intros H. apply Qnot_le_lt. intros Hle. apply Qle_bool_iff in Hle. congruence.
  - intros H. destruct (Qle_bool b a) eqn:Hle; [| reflexivity].
    apply Qle_bool_iff in Hle. now destruct (Qlt_not_le _ _ H).
Qed.

Lemma Qlt_bool_false_iff a b : Qlt_bool a b = false <-> (b <= a)%Q.
Proof.
  unfold Qlt_bool. rewrite negb_false_iff. apply Qle_bool_iff.
Qed.

End JsFacts.

(* ===================================================================== *)
(** ** Facts about the rounding to doubles                                *)
(* ===================================================================== *)

Module DoubleFacts.

Import Double.

Local Open Scope Q_scope.

Lemma two_pow_pos : forall z, 0 < two_pow z.
Proof. intro z. unfold two_pow. apply Qpower_0_lt. reflexivity. Qed.

Lemma two_pow_add : forall a b, two_pow (a + b) == two_pow a * two_pow b.
Proof. intros a b. unfold two_pow. apply Qpower_plus. discriminate. Qed.

Lemma two_pow_le : forall a b, (a <= b)%Z -> two_pow a <= two_pow b.
Proof.
  intros a b Hab. unfold two_pow. apply Qpower_le_compat_l; [exact Hab|].
  discriminate.
Qed.

Lemma two_pow_Z : forall k, (0 <= k)%Z -> two_pow k == inject_Z (2 ^ k).
Proof.
  intros k Hk. unfold two_pow. symmetry.
  change 2 with (inject_Z 2). apply Zpower_Qpower. exact Hk.
Qed.

Lemma two_pow_0 : two_pow 0 == 1.
Proof. reflexivity. Qed.

Lemma two_pow_cancel : forall a, two_pow a * two_pow (- a) == 1.
Proof.
  intro a. rewrite <- two_pow_add. rewrite Z.add_opp_diag_r. reflexivity.
Qed.

Lemma div_two_pow : forall x a, x / two_pow a == x * two_pow (- a).
Proof.
  intros x a. pose proof (two_pow_pos a) as Hp.
  pose proof (two_pow_cancel a) as Hc.
  apply (Qmult_inj_r _ _ (two_pow a)); [lra|].
  unfold Qdiv. rewrite <- !Qmult_assoc.
  rewrite (Qmult_comm (/ two_pow a)), Qmult_inv_r by lra.
  rewrite (Qmult_comm (two_pow (- a))), Hc. reflexivity.
Qed.

Lemma nearest_even_comp : forall x y, x == y -> nearest_even x = nearest_even y.
Proof.
  intros x y Hxy. unfold nearest_even.
  rewrite (Qfloor_comp _ _ Hxy).
  assert (Hc : (x - inject_Z (Qfloor y) ?= 1 # 2) = (y - inject_Z (Qfloor y) ?= 1 # 2)).
  { apply Qcompare_comp; [rewrite Hxy|]; reflexivity. }
  rewrite Hc. reflexivity.
Qed.

Lemma nearest_even_bounds :
  forall x, (Qfloor x <= nearest_even x <= Qfloor x + 1)%Z.
Proof.
  intro x. unfold nearest_even.
  destruct (x - inject_Z (Qfloor x) ?= 1 # 2); [destruct (Z.even (Qfloor x))| |]; lia.
Qed.

Lemma nearest_even_Z : forall z, nearest_even (inject_Z z) = z.
Proof.
  intro z. unfold nearest_even. rewrite Qfloor_Z.
  destruct (Qcompare_spec (inject_Z z - inject_Z z) (1 # 2)) as [H|H|H];
    try reflexivity; exfalso; lra.
Qed.

Lemma nearest_even_mono :
  forall x y, x <= y -> (nearest_even x <= nearest_even y)%Z.
Proof.
  intros x y Hxy.
  pose proof (Qfloor_resp_le _ _ Hxy) as Hf.
  destruct (Z.eq_dec (Qfloor x) (Qfloor y)) as [He|Hne].
  - unfold nearest_even. rewrite He.
    destruct (Qcompare_spec (x - inject_Z (Qfloor y)) (1 # 2)) as [Hx|Hx|Hx];
      destruct (Qcompare_spec (y - inject_Z (Qfloor y)) (1 # 2)) as [Hy|Hy|Hy];
      try (destruct (Z.even (Qfloor y))); try lia; exfalso; lra.
  - pose proof (nearest_even_bounds x). pose proof (nearest_even_bounds y). lia.
Qed.

Lemma exponent_comp : forall x y, x == y -> exponent x = exponent y.
Proof.
  intros x y Hxy. unfold exponent.
  assert (Hb : Qle_bool 1 x = Qle_bool 1 y).
  { apply Qleb_comp; [reflexivity | exact Hxy]. }
  rewrite Hb, (Qfloor_comp _ _ Hxy).
  assert (Hi : / x == / y) by (rewrite Hxy; reflexivity).
  rewrite (Qceiling_comp _ _ Hi). reflexivity.
Qed.

Lemma exponent_spec :
  forall x, 0 < x ->
    two_pow (exponent x) <= x /\ x < two_pow (exponent x + 1).
Proof.
  intros x Hx. unfold exponent.
  destruct (Qle_bool 1 x) eqn:Hb.
  - apply Qle_bool_iff in Hb.
    assert (Hf : (0 < Qfloor x)%Z).
    { assert (H1 : (Qfloor 1 <= Qfloor x)%Z) by (apply Qfloor_resp_le; exact Hb).
      change (Qfloor 1) with 1%Z in H1. lia. }
    pose proof (Z.log2_spec _ Hf) as [Hlo Hhi].
    pose proof (Z.log2_nonneg (Qfloor x)) as Hnn.
    pose proof (Qfloor_le x) as Hfl. pose proof (Qlt_floor x) as Hlt.
    rewrite !two_pow_Z by lia. split.
    + apply Qle_trans with (inject_Z (Qfloor x)); [|exact Hfl].
      rewrite <- Zle_Qle. exact Hlo.
    + apply Qlt_le_trans with (inject_Z (Qfloor x + 1)); [exact Hlt|].
      rewrite <- Zle_Qle. rewrite <- Z.add_1_r in Hhi. lia.
  - assert (Hx1 : x < 1).
    { apply Qnot_le_lt. intro H. apply Qle_bool_iff in H. congruence. }
    assert (Hinv : 0 < / x) by (apply Qinv_lt_0_compat; exact Hx).
    assert (Hxi : x * / x == 1) by (apply Qmult_inv_r; lra).
    assert (H1i : 1 < / x) by nra.
    set (c := Qceiling (/ x)).
    pose proof (Qle_ceiling (/ x)) as Hc1. pose proof (Qceiling_lt (/ x)) as Hc2.
    fold c in Hc1, Hc2.
    assert (Hc : (1 < c)%Z).
    { rewrite Zlt_Qlt. apply Qlt_le_trans with (/ x); assumption. }
    pose proof (Z.log2_up_spec _ Hc) as [Hlo Hhi].
    assert (Hk : (0 < Z.log2_up c)%Z) by (apply Z.log2_up_pos; exact Hc).
    set (k := Z.log2_up c) in *.
    pose proof (two_pow_cancel k) as Hck.
    pose proof (two_pow_pos (- k)) as Hp.
    assert (HkZ : two_pow k == inject_Z (2 ^ k)) by (apply two_pow_Z; lia).
    split.
    + assert (Hle : / x <= two_pow k).
      { rewrite HkZ. apply Qle_trans with (inject_Z c); [exact Hc1|].
        rewrite <- Zle_Qle. exact Hhi. }
      nra.
    + replace (- k + 1)%Z with (- (k - 1))%Z by lia.
      pose proof (two_pow_cancel (k - 1)) as Hck1.
      pose proof (two_pow_pos (- (k - 1))) as Hp1.
      assert (HkZ1 : two_pow (k - 1) == inject_Z (2 ^ (k - 1))) by (apply two_pow_Z; lia).
      assert (Hlt : two_pow (k - 1) < / x).
      { rewrite HkZ1. apply Qle_lt_trans with (inject_Z (c - 1)); [|exact Hc2].
        rewrite <- Zle_Qle. rewrite <- Z.sub_1_r in Hlo. lia. }
      nra.
Qed.

Lemma exponent_mono :
  forall x y, 0 < x -> x <= y -> (exponent x <= exponent y)%Z.
Proof.
  intros x y Hx Hxy.
  destruct (exponent_spec Hx) as [Hlo _].
  assert (Hy : 0 < y) by lra.
  destruct (exponent_spec Hy) as [_ Hhi].
  destruct (Z_le_gt_dec (exponent x) (exponent y)) as [H|H]; [exact H|].
  exfalso.
  assert (Hp : two_pow (exponent y + 1) <= two_pow (exponent x)) by (apply two_pow_le; lia).
  lra.
Qed.

Lemma quantum_comp : forall x y, x == y -> quantum x = quantum y.
Proof. intros x y Hxy. unfold quantum. rewrite (exponent_comp Hxy). reflexivity. Qed.

Lemma quantum_mono :
  forall x y, 0 < x -> x <= y -> (quantum x <= quantum y)%Z.
Proof.
  intros x y Hx Hxy. unfold quantum.
  pose proof (exponent_mono Hx Hxy). lia.
Qed.

Lemma on_grid_mono :
  forall q x y, x <= y ->
    inject_Z (nearest_even (x / two_pow q)) * two_pow q <=
    inject_Z (nearest_even (y / two_pow q)) * two_pow q.
Proof.
  intros q x y Hxy. pose proof (two_pow_pos q) as Hp.
  apply Qmult_le_compat_r; [|lra].
  rewrite <- Zle_Qle. apply nearest_even_mono.
  apply Qmult_le_compat_r; [exact Hxy|].
  apply Qlt_le_weak, Qinv_lt_0_compat, Hp.
Qed.

Lemma on_grid_multiple :
  forall q z x, x == inject_Z z * two_pow q ->
    inject_Z (nearest_even (x / two_pow q)) * two_pow q == x.
Proof.
  intros q z x Hx. pose proof (two_pow_pos q) as Hp.
  assert (Hd : x / two_pow q == inject_Z z).
  { rewrite Hx. apply Qdiv_mult_l. lra. }
  rewrite (nearest_even_comp Hd), nearest_even_Z. symmetry. exact Hx.
Qed.

Lemma on_grid_two_pow :
  forall q a, (q <= a)%Z ->
    inject_Z (nearest_even (two_pow a / two_pow q)) * two_pow q == two_pow a.
Proof.
  intros q a Hqa. apply on_grid_multiple with (z := (2 ^ (a - q))%Z).
  rewrite <- two_pow_Z by lia. rewrite <- two_pow_add.
  replace (a - q + q)%Z with a by lia. reflexivity.
Qed.

Lemma round_positive_comp :
  forall x y, x == y -> round_positive x == round_positive y.
Proof.
  intros x y Hxy. unfold round_positive. rewrite (quantum_comp Hxy).
  assert (Hd : x / two_pow (quantum y) == y / two_pow (quantum y))
    by (rewrite Hxy; reflexivity).
  rewrite (nearest_even_comp Hd). reflexivity.
Qed.

Lemma round_positive_mono :
  forall x y, 0 < x -> x <= y -> round_positive x <= round_positive y.
Proof.
  intros x y Hx Hxy. unfold round_positive.
  assert (Hy : 0 < y) by lra.
  pose proof (quantum_mono Hx Hxy) as Hq.
  destruct (Z.eq_dec (quantum x) (quantum y)) as [He|Hne].
  - rewrite He. apply on_grid_mono. exact Hxy.
  - pose proof (exponent_mono Hx Hxy) as He.
    destruct (exponent_spec Hx) as [_ Hxhi].
    destruct (exponent_spec Hy) as [Hylo _].
    unfold quantum in Hq, Hne.
    assert (Hey : (exponent x + 1 <= exponent y)%Z) by lia.
    assert (Hxb : x <= two_pow (exponent y)).
    { pose proof (two_pow_le Hey). lra. }
    apply Qle_trans with (two_pow (exponent y)).
    + assert (Hg : (quantum x <= exponent y)%Z) by (unfold quantum; lia).
      pose proof (on_grid_two_pow Hg) as Hfix.
      pose proof (on_grid_mono (quantum x) Hxb) as Hm.
      fold (quantum x). lra.
    + assert (Hg : (quantum y <= exponent y)%Z) by (unfold quantum; lia).
      pose proof (on_grid_two_pow Hg) as Hfix.
      pose proof (on_grid_mono (quantum y) Hylo) as Hm.
      fold (quantum y). lra.
Qed.

Lemma round_positive_nonneg : forall x, 0 < x -> 0 <= round_positive x.
Proof.
  intros x Hx. unfold round_positive.
  pose proof (two_pow_pos (quantum x)) as Hp.
  apply Qmult_le_0_compat; [|lra].
  change 0 with (inject_Z 0). rewrite <- Zle_Qle.
  pose proof (nearest_even_bounds (x / two_pow (quantum x))) as [Hlo _].
  assert (Hf : (Qfloor 0 <= Qfloor (x / two_pow (quantum x)))%Z).
  { apply Qfloor_resp_le. apply Qle_shift_div_l; lra. }
  change (Qfloor 0) with 0%Z in Hf. lia.
Qed.

Lemma fl_comp : forall x y, x == y -> fl x == fl y.
Proof.
  intros x y Hxy. unfold fl. rewrite !Qred_correct.
  assert (Hc : (x ?= 0) = (y ?= 0)) by (apply Qcompare_comp; [exact Hxy | reflexivity]).
  rewrite Hc. destruct (y ?= 0).
  - reflexivity.
  - apply Qopp_comp, round_positive_comp. rewrite Hxy. reflexivity.
  - apply round_positive_comp, Hxy.
Qed.

Lemma fl_0 : fl 0 == 0.
Proof. reflexivity. Qed.

Lemma fl_pos : forall x, 0 < x -> fl x == round_positive x.
Proof.
  intros x Hx. unfold fl. rewrite Qred_correct.
  destruct (Qcompare_spec x 0) as [H|H|H]; [exfalso; lra | exfalso; lra | reflexivity].
Qed.

Lemma fl_neg : forall x, x < 0 -> fl x == - round_positive (- x).
Proof.
  intros x Hx. unfold fl. rewrite Qred_correct.
  destruct (Qcompare_spec x 0) as [H|H|H]; [exfalso; lra | reflexivity | exfalso; lra].
Qed.

Lemma fl_nonneg : forall x, 0 <= x -> 0 <= fl x.
Proof.
  intros x Hx. destruct (Qlt_le_dec 0 x) as [H|H].
  - rewrite (fl_pos H). apply round_positive_nonneg, H.
  - assert (H0 : x == 0) by lra. rewrite (fl_comp H0). apply Qle_refl.
Qed.

Lemma fl_nonpos : forall x, x <= 0 -> fl x <= 0.
Proof.
  intros x Hx. destruct (Qlt_le_dec x 0) as [H|H].
  - rewrite (fl_neg H).
    assert (Hn : 0 < - x) by lra.
    pose proof (round_positive_nonneg Hn). lra.
  - assert (H0 : x == 0) by lra. rewrite (fl_comp H0). apply Qle_refl.
Qed.

Lemma fl_mono : forall x y, x <= y -> fl x <= fl y.
Proof.
  intros x y Hxy.
  destruct (Qlt_le_dec 0 x) as [Hx|Hx].
  - assert (Hy : 0 < y) by lra.
    rewrite (fl_pos Hx), (fl_pos Hy). apply round_positive_mono; assumption.
  - destruct (Qlt_le_dec y 0) as [Hy|Hy].
    + assert (Hx' : x < 0) by lra.
      rewrite (fl_neg Hx'), (fl_neg Hy).
      assert (Hm : round_positive (- y) <= round_positive (- x))
        by (apply round_positive_mono; lra).
      lra.
    + pose proof (fl_nonpos Hx). pose proof (fl_nonneg Hy). lra.
Qed.

Lemma fl_opp : forall x, fl (- x) == - fl x.
Proof.
  intro x. destruct (Q_dec x 0) as [[H|H]|H].
  - assert (Hn : 0 < - x) by lra. rewrite (fl_pos Hn), (fl_neg H). ring.
  - assert (Hn : - x < 0) by lra. rewrite (fl_pos H), (fl_neg Hn).
    assert (He : - - x == x) by ring. rewrite (round_positive_comp He). reflexivity.
  - assert (Hn : - x == 0) by lra. rewrite (fl_comp Hn), (fl_comp H). reflexivity.
Qed.

Lemma fl_integer :
  forall z, (Z.abs z < 2 ^ 53)%Z -> fl (inject_Z z) == inject_Z z.
Proof.
  assert (Hpos : forall z, (0 < z < 2 ^ 53)%Z -> fl (inject_Z z) == inject_Z z).
  { intros z [Hz Hb].
    assert (Hq : 0 < inject_Z z) by (change 0 with (inject_Z 0); rewrite <- Zlt_Qlt; exact Hz).
    rewrite (fl_pos Hq). unfold round_positive.
    assert (He : exponent (inject_Z z) = Z.log2 z).
    { unfold exponent.
      assert (H1 : Qle_bool 1 (inject_Z z) = true).
      { apply Qle_bool_iff. change 1 with (inject_Z 1). rewrite <- Zle_Qle. lia. }
      rewrite H1, Qfloor_Z. reflexivity. }
    assert (Hl : (0 <= Z.log2 z < 53)%Z).
    { split; [apply Z.log2_nonneg|]. apply Z.log2_lt_pow2; [exact Hz | exact Hb]. }
    unfold quantum. rewrite He.
    set (q := (Z.max (Z.log2 z) (-1022) - 52)%Z).
    assert (Hq0 : (q <= 0)%Z) by (unfold q; lia).
    apply on_grid_multiple with (z := (z * 2 ^ (- q))%Z).
    rewrite inject_Z_mult, <- two_pow_Z by lia.
    rewrite <- Qmult_assoc, <- two_pow_add.
    replace (- q + q)%Z with 0%Z by lia. rewrite two_pow_0. ring. }
  intros z Hz. destruct (Z.lt_trichotomy z 0) as [H|[H|H]].
  - assert (Hn : inject_Z z == - inject_Z (- z)) by (rewrite inject_Z_opp; ring).
    rewrite (fl_comp Hn), fl_opp, Hpos by lia. symmetry. exact Hn.
  - subst z. reflexivity.
  - apply Hpos. lia.
Qed.

Lemma representable_integer :
  forall z, (Z.abs z < 2 ^ 53)%Z -> representable (inject_Z z).
Proof.
  intros z Hz. split; [now apply fl_integer |].
  change (Qabs (inject_Z z)) with (inject_Z (Z.abs z)).
  rewrite two_pow_Z by discriminate. rewrite <- Zlt_Qlt.
  eapply Z.lt_trans; [exact Hz |]. reflexivity.
Qed.

Lemma fl_le : forall x b, representable b -> x <= b -> fl x <= b.
Proof.
  intros x b [Hb _] Hx.
  apply Qle_trans with (fl b); [now apply fl_mono | rewrite Hb; apply Qle_refl].
Qed.

Lemma fl_ge : forall x b, representable b -> b <= x -> b <= fl x.
Proof.
  intros x b [Hb _] Hx.
  apply Qle_trans with (fl b); [rewrite Hb; apply Qle_refl | now apply fl_mono].
Qed.

Lemma fl_exact : forall x y, representable y -> x == y -> fl x == y.
Proof.
  intros x y [Hy _] Hxy. rewrite (fl_comp Hxy). exact Hy.
Qed.

End DoubleFacts.

(* ===================================================================== *)
(** ** Properties of the rate selection rule                              *)
(* ===================================================================== *)

Module RulesFacts.

Import Jsonata Rules RulesSpec JsFacts.

Lemma cheaper_eq_refl a : cheaper_eq a a.
Proof. apply Qle_refl. Qed.

Lemma cheaper_eq_trans a b c : cheaper_eq a b -> cheaper_eq b c -> cheaper_eq a c.
Proof. apply Qle_trans. Qed.

(** The digits of the decimal notation are those [take_digits] reads. *)
Lemma digit_is_digit c d :
  digit c = Some d -> is_digit c = true /\ digit_value c = d.
Proof.
  destruct c as [[] [] [] [] [] [] [] []]; cbn; intros H;
    try discriminate H; injection H as <-; split; reflexivity.
Qed.

Lemma digit_no_sign c d (A : Type) (yes : string -> A) (no : A) t :
  digit c = Some d ->
  match String c t with
  | String "-" t' => yes t'
  | _ => no
  end = no.
Proof.
  destruct c as [[] [] [] [] [] [] [] []]; cbn; intros H;
    try discriminate H; reflexivity.
Qed.

Lemma take_digits_stops acc n rest :
  stops rest -> take_digits acc n rest = (acc, n, rest).
Proof.
  destruct rest as [| c rest]; [reflexivity |]. simpl. now intros ->.
Qed.

(** Reading digits by Horner's rule yields the number they denote. *)
Lemma take_digits_numeral s : forall ds acc n rest,
  digits s = Some ds -> stops rest ->
  take_digits acc n (s ++ rest) =
    ((acc * 10 ^ Z.of_nat (List.length ds) + numeral ds)%Z,
     (n + List.length ds)%nat, rest).
Proof.
  induction s as [| c s IH]; intros ds acc n rest Hds Hrest.
  - injection Hds as <-. cbn [append List.length numeral].
    rewrite take_digits_stops by exact Hrest. f_equal. f_equal.
    + cbn. ring.
    + apply plus_n_O.
  - cbn [digits] in Hds.
    destruct (digit c) as [d |] eqn:Hd; [| discriminate].
    destruct (digits s) as [ds' |] eqn:Hds'; [| discriminate].
    injection Hds as <-.
    destruct (@digit_is_digit c d Hd) as [Hc Hv].
    cbn [append take_digits]. rewrite Hc, Hv, (@IH ds' _ _ rest eq_refl Hrest).
    cbn [List.length numeral]. f_equal. f_equal.
    + rewrite Nat2Z.inj_succ, Z.pow_succ_r by apply Nat2Z.is_nonneg. ring.
    + apply Nat.add_succ_comm.
Qed.

Lemma append_empty s : (s ++ "")%string = s.
Proof. induction s as [| c s IH]; [reflexivity |]. cbn. now rewrite IH. Qed.

Lemma split_at_point_whole s : forall whole fraction,
  split_at_point s = (whole, fraction) ->
  s = (whole ++ match fraction with
                | Some f => String "." f
                | None => EmptyString
                end)%string.
Proof.
  induction s as [| c s IH]; intros whole fraction H.
  - injection H as <- <-. reflexivity.
  - cbn [split_at_point] in H. destruct (Ascii.eqb_spec c ".") as [-> | Hc].
    + injection H as <- <-. reflexivity.
    + destruct (split_at_point s) as [w f]. injection H as <- <-.
      cbn [append]. f_equal. now apply IH.
Qed.

(** On a decimal numeral, the parser of [$number] yields the value the
    numeral denotes. *)
Lemma decimal_literal_value s v :
  decimal_value s = Some v ->
  exists v', decimal_literal s = Some v' /\ (v' == v)%Q.
Proof.
  unfold decimal_value. intros H.
  destruct (split_at_point s) as [whole fraction] eqn:Hsplit.
  apply split_at_point_whole in Hsplit.
  destruct (digits whole) as [[| i0 i] |] eqn:Hi;
    try (destruct fraction; discriminate).
  assert (Hfirst : exists c t d, whole = String c t /\ digit c = Some d).
  { destruct whole as [| c t]; [discriminate |]. cbn [digits] in Hi.
    destruct (digit c) as [d |] eqn:Hd; [| discriminate]. now exists c, t, d. }
  destruct Hfirst as (c & t & d & Hwhole & Hd).
  unfold decimal_literal. subst s.
  set (tail := match fraction with
               | Some f => String "." f
               | None => EmptyString
               end) in *.
  assert (Hsign : match (whole ++ tail)%string with
                  | String "-" t' => (true, t')
                  | _ => (false, (whole ++ tail)%string)
                  end = (false, (whole ++ tail)%string)).
  { rewrite Hwhole. cbn [append].
    apply (@digit_no_sign c d _ (fun t' => (true, t'))
             (false, String c (t ++ tail)) _ Hd). }
  rewrite Hsign. subst tail.
  destruct fraction as [f |].
  - destruct (digits f) as [[| f0 fd] |] eqn:Hf; try discriminate.
    assert (Hv : v = (inject_Z (numeral (i0 :: i)) +
                      inject_Z (numeral (f0 :: fd)) /
                      inject_Z (pow10 (List.length (f0 :: fd))))%Q)
      by (injection H as <-; reflexivity).
    clear H. subst v.
    rewrite (@take_digits_numeral whole _ 0%Z 0%nat (String "." f) Hi eq_refl).
    cbn [List.length Nat.add].
    replace (take_digits 0 0 f) with (take_digits 0 0 (f ++ "")) by (now rewrite append_empty).
    rewrite (@take_digits_numeral f _ 0%Z 0%nat EmptyString Hf I).
    cbn [List.length Nat.add exponent_part].
    eexists. split; [reflexivity |].
    set (whole_part := numeral (i0 :: i)).
    set (fraction_part := numeral (f0 :: fd)).
    set (nf := List.length (f0 :: fd)).
    assert (Hpow : (0 < pow10 nf)%Z)
      by (unfold pow10; apply Z.pow_pos_nonneg; [reflexivity | apply Nat2Z.is_nonneg]).
    rewrite Qmake_Qdiv, Z2Pos.id by exact Hpow.
    rewrite !Z.mul_0_l, !Z.add_0_l, inject_Z_plus, inject_Z_mult.
    fold (pow10 nf).
    assert (Hnz : ~ (inject_Z (pow10 nf) == 0)%Q).
    { change 0%Q with (inject_Z 0). rewrite inject_Z_injective. lia. }
    field. exact Hnz.
  - assert (Hv : v = inject_Z (numeral (i0 :: i)))
      by (injection H as <-; reflexivity).
    clear H. subst v.
    rewrite (@take_digits_numeral whole _ 0%Z 0%nat EmptyString Hi I).
    cbn [List.length Nat.add exponent_part].
    eexists. split; [reflexivity |].
    rewrite Z.mul_0_l, Z.add_0_l. reflexivity.
Qed.

Lemma overflows_comp x y : (x == y)%Q -> Double.overflows x = Double.overflows y.
Proof.
  intros H. unfold Double.overflows. apply Qleb_comp; [reflexivity |].
  now rewrite (DoubleFacts.fl_comp H).
Qed.

(** On the rate of a priced quote, [$number] yields its price. *)
Lemma number_priced q :
  priced q -> exists p, number (rate q) = Some p /\ (p == price q)%Q.
Proof.
  intros (v & Hv & Hfinite). unfold price, amount. rewrite Hv.
  destruct (@decimal_literal_value _ _ Hv) as (v' & Hlit & Heq).
  unfold number, finite. rewrite Hlit, (@overflows_comp _ _ Heq), Hfinite.
  eexists. split; [reflexivity |]. now apply DoubleFacts.fl_comp.
Qed.

(** [$number] on some strings: decimal notation with and without
    exponent, a value beyond the doubles, a hexadecimal literal, two
    numerals that are one double, and a string that is no number. *)
Lemma number_examples :
  number "12.50" = Some (25 # 2) /\
  number "1.5e2" = Some 150 /\
  number "-3" = Some (- 3) /\
  number "1e400" = None /\
  number "0x10" = Some 16 /\
  number "0.10000000000000000001" = number "0.1" /\
  number "0.1" = Some (3602879701896397 # 36028797018963968) /\
  number "1.2.3" = None /\
  number "abc" = None.
Proof. repeat split; vm_compute; reflexivity. Qed.

Lemma comparator_priced l r :
  priced l -> priced r ->
  comparator l r = Return (Qlt_bool (price r) (price l)).
Proof.
  intros Hl Hr. unfold comparator.
  destruct (@number_priced l Hl) as (a & -> & Ha).
  destruct (@number_priced r Hr) as (b & -> & Hb).
  f_equal. unfold Qlt_bool. f_equal. now apply Qleb_comp.
Qed.

Lemma merge_nil_r l : merge l [] = Return l.
Proof. destruct l; reflexivity. Qed.

Lemma merge_cons a l b r :
  merge (a :: l) (b :: r) =
  match comparator a b with
  | Throw e => Throw e
  | Return true =>
      match merge (a :: l) r with
      | Throw e => Throw e
      | Return rest => Return (b :: rest)
      end
  | Return false =>
      match merge l (b :: r) with
      | Throw e => Throw e
      | Return rest => Return (a :: rest)
      end
  end.
Proof. reflexivity. Qed.

(** Merging two priced, sorted lists succeeds and yields a sorted
    permutation of their concatenation. *)
Lemma merge_sorted l : forall r,
  Forall priced l -> Forall priced r ->
  exists m, merge l r = Return m /\ Permutation (l ++ r) m /\
            (StronglySorted cheaper_eq l -> StronglySorted cheaper_eq r ->
             StronglySorted cheaper_eq m).
Proof.
  induction l as [| a l IHl]; intros r Hl Hr.
  - exists r. destruct r; simpl; auto.
  - induction r as [| b r IHr].
    + exists (a :: l). rewrite merge_nil_r, app_nil_r. auto.
    + inversion Hl as [| ? ? Ha Hl']; subst.
      inversion Hr as [| ? ? Hb Hr']; subst.
      rewrite merge_cons, (comparator_priced Ha Hb).
      destruct (Qlt_bool (price b) (price a)) eqn:Hcmp.
      * destruct (IHr Hr') as (m & -> & Hperm & Hsort).
        exists (b :: m). split; [reflexivity |]. split.
        -- rewrite <- Hperm. symmetry. apply Permutation_middle.
        -- intros Sl Sr. inversion Sr as [| ? ? Sr' Fr]; subst.
           constructor; [auto |].
           apply (Permutation_Forall Hperm). apply Forall_app. split; [| exact Fr].
           apply Qlt_bool_iff, Qlt_le_weak in Hcmp.
           inversion Sl as [| ? ? Sl' Fl]; subst.
           constructor; [exact Hcmp |].
           eapply Forall_impl; [| exact Fl].
           intros x Hx. eapply cheaper_eq_trans; [exact Hcmp | exact Hx].
      * destruct (IHl (b :: r) Hl' Hr) as (m & -> & Hperm & Hsort).
        exists (a :: m). split; [reflexivity |]. split.
        -- simpl. now constructor.
        -- intros Sl Sr. inversion Sl as [| ? ? Sl' Fl]; subst.
           constructor; [auto |].
           apply (Permutation_Forall Hperm). apply Forall_app. split; [exact Fl |].
           apply Qlt_bool_false_iff in Hcmp.
           inversion Sr as [| ? ? Sr' Fr]; subst.
           constructor; [exact Hcmp |].
           eapply Forall_impl; [| exact Fr].
           intros x Hx. eapply cheaper_eq_trans; [exact Hcmp | exact Hx].
Qed.

Lemma Forall_firstn_skipn (P : Quote -> Prop) n l :
  Forall P l -> Forall P (firstn n l) /\ Forall P (skipn n l).
Proof.
  intros H. apply Forall_app. now rewrite firstn_skipn.
Qed.

(** [$sort] on priced quotes succeeds with a sorted permutation. *)
Lemma msort_sorted : forall n array,
  (List.length array <= n)%nat -> Forall priced array ->
  exists m, msort array = Return m /\ Permutation array m /\
            StronglySorted cheaper_eq m.
Proof.
  induction n as [| n IHn]; intros array Hlen Hp.
  - destruct array; [| simpl in Hlen; inversion Hlen].
    exists []. simp msort. repeat split; constructor.
  - destruct array as [| q1 [| q2 qs]].
    + exists []. simp msort. repeat split; constructor.
    + exists [q1]. simp msort. repeat split; repeat constructor.
    + simp msort. cbv zeta.
      set (array := q1 :: q2 :: qs) in *.
      set (middle := Nat.div2 (List.length array)).
      assert (Hmid : (0 < middle < List.length array)%nat).
      { subst middle array. simpl List.length.
        split; [simpl; apply Nat.lt_0_succ |].
        apply Nat.lt_div2, Nat.lt_0_succ. }
      destruct (IHn (firstn middle array)) as (l & -> & Pl & Sl).
      { rewrite length_firstn. apply Nat.lt_succ_r.
        eapply Nat.le_lt_trans; [apply Nat.le_min_l |].
        eapply Nat.lt_le_trans; [apply Hmid | exact Hlen]. }
      { now apply Forall_firstn_skipn. }
      destruct (IHn (skipn middle array)) as (r & -> & Pr & Sr).
      { rewrite length_skipn. apply Nat.lt_succ_r.
        eapply Nat.lt_le_trans; [| exact Hlen].
        apply Nat.sub_lt; [apply Nat.lt_le_incl |]; apply Hmid. }
      { now apply Forall_firstn_skipn. }
      destruct (@merge_sorted l r) as (m & -> & Pm & Sm).
      { apply (Permutation_Forall Pl). now apply Forall_firstn_skipn. }
      { apply (Permutation_Forall Pr). now apply Forall_firstn_skipn. }
      exists m. split; [reflexivity |]. split; [| auto].
      rewrite <- Pm, <- Pl, <- Pr. now rewrite firstn_skipn.
Qed.

Lemma StronglySorted_filter (f : Quote -> bool) l :
  StronglySorted cheaper_eq l -> StronglySorted cheaper_eq (filter f l).
Proof.
  induction 1 as [| a l Hs IH Hall]; simpl; [constructor |].
  destruct (f a); [| exact IH].
  constructor; [exact IH |].
  apply Forall_forall. intros x Hx. apply filter_In in Hx.
  rewrite Forall_forall in Hall. now apply Hall.
Qed.

(** The head of a sorted list is a cheapest element of it. *)
Lemma hd_error_cheapest l h :
  StronglySorted cheaper_eq l -> hd_error l = Some h ->
  In h l /\ forall x, In x l -> cheaper_eq h x.
Proof.
  intros Hs Hh. destruct l as [| a l]; [discriminate |].
  simpl in Hh. injection Hh as ->.
  split; [now left |].
  inversion Hs as [| ? ? _ Hall]; subst.
  intros x [<- | Hx]; [apply cheaper_eq_refl |].
  rewrite Forall_forall in Hall. now apply Hall.
Qed.

Lemma rules_unfold s :
  rules s =
  match rates s with
  | Some [] => Throw (NoSuitableRatesError "Easypost shipment returned zero rates")
  | _ =>
      match evaluate (rates s) with
      | Throw e => Throw e
      | Return None => Throw (NoSuitableRatesError "No rates for 2 days or less")
      | Return (Some sorted) =>
          match hd_error (candidates (usps_zone s) sorted) with
          | None => Throw (NoSuitableRatesError "chosenRate: undefined")
          | Some q => Return (Some (id q))
          end
      end
  end.
Proof.
  unfold rules, candidates, bind.
  destruct (rates s) as [[| q qs] |]; try reflexivity;
    (destruct (evaluate _) as [[sorted |] | e]; [| reflexivity | reflexivity]);
    (destruct (2 <? usps_zone s)%Z;
       [ destruct (hd_error (filter _ sorted)) | destruct (hd_error sorted) ];
       reflexivity).
Qed.

Lemma evaluate_unfold quotes :
  evaluate (Some quotes) =
  match filter within_two_days quotes with
  | [] => Return None
  | q :: qs =>
      match msort (q :: qs) with
      | Throw e => Throw e
      | Return sorted => Return (Some sorted)
      end
  end.
Proof.
  unfold evaluate, bind. fold within_two_days.
  destruct (filter within_two_days quotes); reflexivity.
Qed.

(** On a list holding a two-day quote, whose two-day quotes are priced, the
    JSONata expression yields those quotes sorted by price. *)
Lemma evaluate_sorted quotes q0 :
  In q0 quotes -> (delivery_days q0 <= 2)%Z ->
  (forall q, In q quotes -> (delivery_days q <= 2)%Z -> priced q) ->
  exists sorted,
    evaluate (Some quotes) = Return (Some sorted) /\
    Permutation (filter within_two_days quotes) sorted /\
    StronglySorted cheaper_eq sorted.
Proof.
  intros Hin Hdays Hpriced. rewrite evaluate_unfold.
  assert (Hq0 : In q0 (filter within_two_days quotes)).
  { apply filter_In. split; [exact Hin |]. now apply Z.leb_le. }
  destruct (filter within_two_days quotes) as [| q qs] eqn:Hf; [destruct Hq0 |].
  destruct (@msort_sorted (List.length (q :: qs)) (q :: qs)) as (m & -> & Pm & Sm).
  - apply Nat.le_refl.
  - apply Forall_forall. intros x Hx. rewrite <- Hf in Hx.
    apply filter_In in Hx. destruct Hx as [Hx Hd].
    apply Hpriced; [exact Hx | now apply Z.leb_le].
  - exists m. auto.
Qed.

Lemma eligible_candidate zone quotes sorted q :
  Permutation (filter within_two_days quotes) sorted ->
  (In q quotes /\ eligible zone q) <-> In q (candidates zone sorted).
Proof.
  intros Hperm. unfold eligible, candidates.
  assert (Hs : In q sorted <-> In q quotes /\ (delivery_days q <= 2)%Z).
  { split.
    - intros H. apply (Permutation_in _ (Permutation_sym Hperm)) in H.
      apply filter_In in H. destruct H as [H1 H2].
      split; [exact H1 | now apply Z.leb_le].
    - intros [H1 H2]. apply (Permutation_in _ Hperm).
      apply filter_In. split; [exact H1 | now apply Z.leb_le]. }
  destruct (2 <? zone)%Z eqn:Hz.
  - apply Z.ltb_lt in Hz. rewrite filter_In, Hs. unfold not_usps.
    rewrite negb_true_iff, String.eqb_neq. tauto.
  - apply Z.ltb_ge in Hz. rewrite Hs.
    split; [tauto |]. intros [H1 H2]. repeat split; auto.
    intros Hlt. exfalso. apply (Z.lt_irrefl 2).
    eapply Z.lt_le_trans; [exact Hlt | exact Hz].
Qed.

Lemma candidates_sorted zone sorted :
  StronglySorted cheaper_eq sorted ->
  StronglySorted cheaper_eq (candidates zone sorted).
Proof.
  intros H. unfold candidates.
  destruct (2 <? zone)%Z; [now apply StronglySorted_filter | exact H].
Qed.

(** C1.  For every quote list that holds an eligible quote (delivered in
    two days or less and, when zone > 2, not carried by "USPS") and whose
    two-day quotes carry decimal rates, [rules] returns the id of an
    eligible quote of the list whose price is the lowest among the eligible
    quotes.  Prices are compared as the program has them, as doubles: an
    eligible quote that asks for less than the chosen one has a rate that
    is the same double; when the rates that differ are different doubles,
    the chosen quote asks for the least amount.  In particular, for
    [{USPS,1.00,2},{UPS,3.00,1}], in this order or the other, [rules]
    returns the USPS quote's id at zone 1 and the UPS quote's id at
    zone 3. *)
Theorem rules_returns_cheapest_eligible :
  (forall (s : Shipment) (quotes : list Quote),
      rates s = Some quotes ->
      (forall q, In q quotes -> (delivery_days q <= 2)%Z -> priced q) ->
      (exists q, In q quotes /\ eligible (usps_zone s) q) ->
      exists chosen,
        rules s = Return (Some (id chosen)) /\
        In chosen quotes /\ eligible (usps_zone s) chosen /\
        (forall q, In q quotes -> eligible (usps_zone s) q ->
           (price chosen <= price q)%Q /\
           ((amount q < amount chosen)%Q -> (price q == price chosen)%Q)) /\
        ((forall a b, In a quotes -> In b quotes ->
                      eligible (usps_zone s) a -> eligible (usps_zone s) b ->
                      (price a == price b)%Q -> (amount a == amount b)%Q) ->
         forall q, In q quotes -> eligible (usps_zone s) q ->
                   (amount chosen <= amount q)%Q)) /\
  (forall sid idU serviceU currencyU idP serviceP currencyP,
      let quotes := [mkQuote idU "USPS" serviceU "1.00" 2 currencyU;
                     mkQuote idP "UPS" serviceP "3.00" 1 currencyP] in
      rules (mkShipment sid (Some quotes) 1) = Return (Some idU) /\
      rules (mkShipment sid (Some quotes) 3) = Return (Some idP) /\
      rules (mkShipment sid (Some (rev quotes)) 1) = Return (Some idU) /\
      rules (mkShipment sid (Some (rev quotes)) 3) = Return (Some idP)).
Proof.
  split.
  - intros s quotes Hrates Hpriced (q0 & Hin0 & Hel0).
    destruct (@evaluate_sorted quotes q0 Hin0 (proj1 Hel0) Hpriced)
      as (sorted & Hev & Hperm & Hsorted).
    rewrite rules_unfold, Hrates, Hev.
    pose proof (proj1 (eligible_candidate (usps_zone s) quotes q0 Hperm)
                      (conj Hin0 Hel0)) as Hc0.
    destruct quotes as [| q qs]; [destruct Hin0 |].
    destruct (hd_error (candidates (usps_zone s) sorted)) as [h |] eqn:Hh.
    + destruct (hd_error_cheapest (candidates_sorted (usps_zone s) Hsorted) Hh)
        as [Hhin Hmin].
      apply (eligible_candidate (usps_zone s) (q :: qs) h Hperm) in Hhin.
      assert (Hcheapest : forall x, In x (q :: qs) -> eligible (usps_zone s) x ->
                                    (price h <= price x)%Q).
      { intros x Hx Hel. apply Hmin.
        apply (eligible_candidate (usps_zone s) (q :: qs) x Hperm). now split. }
      assert (Hround : forall x, (amount x < amount h)%Q -> (price x <= price h)%Q).
      { intros x Hx. apply DoubleFacts.fl_mono. now apply Qlt_le_weak. }
      exists h. split; [reflexivity |].
      split; [apply Hhin |]. split; [apply Hhin |]. split.
      * intros x Hx Hel. split; [now apply Hcheapest |].
        intros Hless. apply Qle_antisym; [now apply Hround | now apply Hcheapest].
      * intros Hdistinct x Hx Hel.
        destruct (Qlt_le_dec (amount x) (amount h)) as [Hless | Hle]; [| exact Hle].
        assert (Hsame : (price x == price h)%Q)
          by (apply Qle_antisym; [now apply Hround | now apply Hcheapest]).
        apply (Hdistinct x h Hx (proj1 Hhin) Hel (proj2 Hhin)) in Hsame.
        rewrite Hsame. apply Qle_refl.
    + destruct (candidates (usps_zone s) sorted); [destruct Hc0 | discriminate].
  - intros. repeat split; vm_compute; reflexivity.
Qed.

Lemma rules_returns_cheapest_eligible_witness :
  rules (mkShipment "shp_1" (Some unsorted_quotes) 3) = Return (Some "rate_4"%string) /\
  exists chosen,
    rules (mkShipment "shp_1" (Some unsorted_quotes) 3) = Return (Some (id chosen)) /\
    In chosen unsorted_quotes /\ eligible 3 chosen /\
    (forall q, In q unsorted_quotes -> eligible 3 q ->
       (price chosen <= price q)%Q /\
       ((amount q < amount chosen)%Q -> (price q == price chosen)%Q)) /\
    ((forall a b, In a unsorted_quotes -> In b unsorted_quotes ->
                  eligible 3 a -> eligible 3 b ->
                  (price a == price b)%Q -> (amount a == amount b)%Q) ->
     forall q, In q unsorted_quotes -> eligible 3 q ->
               (amount chosen <= amount q)%Q).
Proof.
  split; [vm_compute; reflexivity |].
  apply (proj1 rules_returns_cheapest_eligible
               (mkShipment "shp_1" (Some unsorted_quotes) 3) unsorted_quotes).
  - reflexivity.
  - intros q [<- | [<- | [<- | [<- | [<- | []]]]]] Hdays;
      try (eexists; split; [reflexivity | vm_compute; reflexivity]);
      exfalso; apply Hdays; reflexivity.
  - exists (mkQuote "rate_1" "UPS" "Next Day Air" "12.50" 1 "USD").
    split; [left; reflexivity |].
    split; [discriminate | intros _; discriminate].
Defined.

(** C6.  [rules] fails with a [NoSuitableRatesError] in both degenerate
    cases: on an empty rate list ("zero rates") and on a non-empty list none
    of whose quotes is delivered in two days or less ("no rates for 2 days or
    less"). *)
Theorem rules_fails_without_two_day_rates :
  (forall s, rates s = Some [] ->
     rules s =
     Throw (mkThrown NoSuitableRatesErrorC "Easypost shipment returned zero rates")) /\
  (forall s quotes,
     rates s = Some quotes -> quotes <> [] ->
     (forall q, In q quotes -> ~ (delivery_days q <= 2)%Z) ->
     rules s = Throw (mkThrown NoSuitableRatesErrorC "No rates for 2 days or less")).
Proof.
  split.
  - intros s Hrates. rewrite rules_unfold, Hrates. reflexivity.
  - intros s quotes Hrates Hne Hslow.
    rewrite rules_unfold, Hrates, evaluate_unfold.
    assert (Hf : filter within_two_days quotes = []).
    { clear - Hslow. induction quotes as [| a l IH]; [reflexivity |].
      simpl. destruct (within_two_days a) eqn:Hd.
      - apply Z.leb_le in Hd. destruct (Hslow a (or_introl eq_refl) Hd).
      - apply IH. intros q Hq. apply Hslow. now right. }
    rewrite Hf. destruct quotes; [now destruct Hne | reflexivity].
Qed.

Lemma rules_fails_without_two_day_rates_witness :
  rules (mkShipment "shp_1" (Some []) 1) =
    Throw (mkThrown NoSuitableRatesErrorC "Easypost shipment returned zero rates") /\
  rules (mkShipment "shp_2"
           (Some [mkQuote "rate_1" "FedEx" "Ground" "5.00" 5 "USD"]) 1) =
    Throw (mkThrown NoSuitableRatesErrorC "No rates for 2 days or less").
Proof.
  split.
  - apply (proj1 rules_fails_without_two_day_rates). reflexivity.
  - apply (proj2 rules_fails_without_two_day_rates _
             [mkQuote "rate_1" "FedEx" "Ground" "5.00" 5 "USD"]).
    + reflexivity.
    + discriminate.
    + intros q [<- | []]. simpl. lia.
Defined.

(** C9.  [rules] never resolves to [undefined]: it returns a defined rate id
    or throws, and whenever the chosen rate is [undefined] (no candidate is
    left after the carrier exclusion) it throws a [NoSuitableRatesError]. *)
Theorem rules_never_returns_undefined :
  (forall s, rules s <> Return None) /\
  (forall s, (exists rate_id, rules s = Return (Some rate_id)) \/
             (exists e, rules s = Throw e)) /\
  (forall s sorted,
     rates s <> Some [] ->
     evaluate (rates s) = Return (Some sorted) ->
     hd_error (candidates (usps_zone s) sorted) = None ->
     rules s = Throw (mkThrown NoSuitableRatesErrorC "chosenRate: undefined")).
Proof.
  assert (Hcases : forall s, (exists rate_id, rules s = Return (Some rate_id)) \/
                             (exists e, rules s = Throw e)).
  { intros s. rewrite rules_unfold.
    destruct (rates s) as [[| q qs] |]; eauto;
      (destruct (evaluate _) as [[sorted |] | e]; eauto);
      (destruct (hd_error _); eauto). }
  split; [| split].
  - intros s. destruct (Hcases s) as [[i ->] | [e ->]]; discriminate.
  - exact Hcases.
  - intros s sorted Hne Hev Hhd. rewrite rules_unfold, Hev, Hhd.
    destruct (rates s) as [[| q qs] |]; [now destruct Hne | reflexivity ..].
Qed.

Lemma rules_never_returns_undefined_witness :
  rules (mkShipment "shp_1"
           (Some [mkQuote "rate_1" "USPS" "Priority" "1.00" 2 "USD"]) 3) =
  Throw (mkThrown NoSuitableRatesErrorC "chosenRate: undefined").
Proof.
  apply (proj2 (proj2 rules_never_returns_undefined)
           (mkShipment "shp_1"
              (Some [mkQuote "rate_1" "USPS" "Priority" "1.00" 2 "USD"]) 3)
           [mkQuote "rate_1" "USPS" "Priority" "1.00" 2 "USD"]).
  - discriminate.
  - reflexivity.
  - reflexivity.
Defined.

End RulesFacts.

(* ===================================================================== *)
(** ** Properties of the retry engine                                     *)
(* ===================================================================== *)

Module RetryFacts.

Import Retry RetrySpec JsFacts.

Lemma of_nat_le a b : (of_nat a <= of_nat b)%Q <-> (a <= b)%nat.
Proof.
  unfold of_nat. rewrite <- Zle_Qle. symmetry. apply Nat2Z.inj_le.
Qed.

Lemma of_nat_eq a b : (of_nat a == of_nat b)%Q <-> a = b.
Proof.
  unfold of_nat. rewrite inject_Z_injective. apply Nat2Z.inj_iff.
Qed.

Lemma retry_valid {St R : Type} env (f : St -> Completion (option R) * St)
    types options w :
  valid_options options ->
  retry env (Callable f) (ErrorTypesArray types) options w =
  loop env f types options (iterations options) 0 w.
Proof.
  intros ((Hj0 & Hj1) & Hm & Hr). unfold retry.
  rewrite (proj2 (Qlt_bool_false_iff _ _) Hj0), (proj2 (Qlt_bool_false_iff _ _) Hj1).
  rewrite (proj2 (Qlt_bool_false_iff _ _) Hm), (proj2 (Qlt_bool_false_iff _ _) Hr).
  reflexivity.
Qed.

Section EngineFacts.

Variables St R : Type.
Variable env : Environment.
Variable f : St -> Completion (option R) * St.
Variable types : list ErrorClass.
Variable opts : Options.

Lemma attempt_once_world w :
  invocations (snd (attempt_once env f opts w)) = S (invocations w) /\
  waits (snd (attempt_once env f opts w)) = waits w /\
  draws (snd (attempt_once env f opts w)) = draws w.
Proof.
  unfold attempt_once. destruct (f (user w)) as [result st].
  destruct (_ && _); simpl; auto.
Qed.

Lemma wait_before_retry_world attempt (w : World St) :
  user (wait_before_retry env opts attempt w) = user w /\
  invocations (wait_before_retry env opts attempt w) = invocations w /\
  waits (wait_before_retry env opts attempt w) =
    waits w ++ [waited env opts attempt (draws w)] /\
  draws (wait_before_retry env opts attempt w) =
    if Qlt_bool 0 (to_number (jitter opts)) then S (draws w) else draws w.
Proof.
  unfold wait_before_retry, waited.
  destruct (Qlt_bool 0 (to_number (jitter opts))); simpl; auto.
Qed.

Lemma attempt_once_outcome (w : World St) :
  fst (attempt_once env f opts w) =
    attempt_outcome env f opts (user w) (invocations w) /\
  user (snd (attempt_once env f opts w)) = snd (f (user w)).
Proof.
  unfold attempt_outcome, attempt_once. simpl.
  destruct (f (user w)) as [result st].
  destruct (_ && _); simpl; auto.
Qed.

Lemma state_after_0 (u : St) : state_after f 0 u = u.
Proof. reflexivity. Qed.

Lemma state_after_succ j (u : St) :
  state_after f (S j) u = snd (f (state_after f j u)).
Proof. reflexivity. Qed.

Lemma state_after_next j (u : St) :
  state_after f j (snd (f u)) = state_after f (S j) u.
Proof.
  unfold state_after. symmetry. apply Nat.iter_succ_r.
Qed.

Lemma loop_step fuel attempt w :
  loop env f types opts (S fuel) attempt w =
  if Qle_bool (of_nat attempt) (to_number (maxRetries opts)) then
    match attempt_once env f opts w with
    | (Return result, w1) => Some (Return result, w1)
    | (Throw error, w1) =>
        if strict_equal_number (of_nat attempt) (maxRetries opts) then
          Some (Throw error, w1)
        else if negb (shouldRetry types error) then Some (Throw error, w1)
        else loop env f types opts fuel (S attempt)
               (wait_before_retry env opts (S attempt) w1)
    end
  else Some (Return None, w).
Proof. reflexivity. Qed.

(** With [fuel] at least the number of remaining attempts the loop ends. *)
Lemma loop_terminates fuel : forall attempt w,
  (S (Z.to_nat (Qfloor (to_number (maxRetries opts)))) <= fuel + attempt)%nat ->
  loop env f types opts fuel attempt w <> None.
Proof.
  induction fuel as [| fuel IH]; intros attempt w Hfuel.
  - simpl. destruct (Qle_bool _ _) eqn:Hc; [| discriminate].
    exfalso. apply Qle_bool_iff in Hc. apply Qfloor_resp_le in Hc.
    unfold of_nat in Hc. rewrite Qfloor_Z in Hc. simpl in Hfuel. lia.
  - rewrite loop_step. destruct (Qle_bool _ _); [| discriminate].
    destruct (attempt_once env f opts w) as [[result | error] w1]; [discriminate |].
    destruct (strict_equal_number _ _); [discriminate |].
    destruct (negb _); [discriminate |].
    apply IH. lia.
Qed.

Section IntegerBudget.

Variable n : nat.
Variable q : Q.
Hypothesis Hmax : maxRetries opts = JNumber q.
Hypothesis Hq : (q == of_nat n)%Q.

Lemma condition_holds attempt :
  (attempt <= n)%nat ->
  Qle_bool (of_nat attempt) (to_number (maxRetries opts)) = true.
Proof.
  intros H. rewrite Hmax. simpl. apply Qle_bool_iff. rewrite Hq.
  now apply of_nat_le.
Qed.

Lemma last_attempt_test attempt :
  strict_equal_number (of_nat attempt) (maxRetries opts) = (attempt =? n)%nat.
Proof.
  rewrite Hmax. simpl. destruct (Nat.eqb_spec attempt n) as [-> | Hne].
  - apply Qeq_eq_bool. now symmetry.
  - destruct (Qeq_bool (of_nat attempt) q) eqn:He; [| reflexivity].
    apply Qeq_bool_eq in He. rewrite Hq in He. apply of_nat_eq in He.
    now destruct Hne.
Qed.

(** A run of [k + 1] retryable failures that uses up the budget: the loop
    throws the error of the last of them, [failure k]. *)
Lemma loop_retryable_failures k : forall (failure : nat -> Thrown) attempt w fuel,
  (attempt + k = n)%nat -> (k < fuel)%nat ->
  (forall j, (j <= k)%nat ->
      attempt_outcome env f opts (state_after f j (user w)) (invocations w + j)
        = Throw (failure j) /\
      shouldRetry types (failure j) = true) ->
  exists w',
    loop env f types opts fuel attempt w = Some (Throw (failure k), w') /\
    user w' = state_after f (S k) (user w) /\
    invocations w' = (invocations w + k + 1)%nat /\
    List.length (waits w') = (List.length (waits w) + k)%nat.
Proof.
  induction k as [| k IH]; intros failure attempt w fuel Hk Hfuel Hfail;
    (destruct fuel as [| fuel]; [inversion Hfuel |]);
    rewrite loop_step, condition_holds, last_attempt_test by lia;
    destruct (attempt_once_outcome w) as (Hout & Huser);
    destruct (attempt_once_world w) as (Hinv & Hwaits & _);
    destruct (attempt_once env f opts w) as [result w1];
    cbn [fst snd] in Hout, Huser, Hinv, Hwaits;
    destruct (Hfail 0%nat (Nat.le_0_l _)) as (H0 & Hretry);
    rewrite state_after_0, Nat.add_0_r in H0;
    rewrite H0 in Hout; subst result.
  - replace (attempt =? n)%nat with true by (symmetry; apply Nat.eqb_eq; lia).
    exists w1. split; [reflexivity |]. split; [exact Huser |].
    rewrite Hinv, Hwaits. split; lia.
  - replace (attempt =? n)%nat with false by (symmetry; apply Nat.eqb_neq; lia).
    rewrite Hretry. cbn [negb].
    destruct (wait_before_retry_world (S attempt) w1) as (Hu3 & Hi3 & Hw3 & _).
    destruct (IH (fun j => failure (S j)) (S attempt)
                 (wait_before_retry env opts (S attempt) w1) fuel)
      as (w' & Hloop & Hu' & Hi' & Hw').
    + lia.
    + lia.
    + intros j Hj. rewrite Hu3, Huser, Hi3, Hinv, state_after_next.
      replace (S (invocations w) + j)%nat with (invocations w + S j)%nat by lia.
      apply Hfail. lia.
    + exists w'. split; [exact Hloop |].
      rewrite Hu', Hi', Hw', Hu3, Huser, Hi3, Hinv, Hw3, Hwaits, length_app,
        state_after_next.
      split; [reflexivity |]. simpl. split; lia.
Qed.

(** Conversely, when the loop throws an error that the retryable set
    matches, every attempt up to the last allowed one has been made and has
    failed with an error that the set matches. *)
Lemma loop_exhausted fuel : forall attempt w e w',
  (attempt <= n)%nat ->
  loop env f types opts fuel attempt w = Some (Throw e, w') ->
  shouldRetry types e = true ->
  attempt_outcome env f opts (state_after f (n - attempt) (user w))
                  (invocations w + (n - attempt)) = Throw e /\
  user w' = state_after f (S (n - attempt)) (user w) /\
  forall j, (j <= n - attempt)%nat -> exists e_j,
    attempt_outcome env f opts (state_after f j (user w)) (invocations w + j)
      = Throw e_j /\
    shouldRetry types e_j = true.
Proof.
  induction fuel as [| fuel IH]; intros attempt w e w' Ha Hloop He.
  - simpl in Hloop. destruct (Qle_bool _ _); discriminate.
  - rewrite loop_step, (condition_holds Ha), last_attempt_test in Hloop.
    destruct (attempt_once_outcome w) as (Hout & Huser).
    destruct (attempt_once_world w) as (Hinv & _).
    destruct (attempt_once env f opts w) as [[r | e1] w1]; [discriminate |].
    cbn [fst snd] in Hout, Huser, Hinv.
    destruct (Nat.eqb_spec attempt n) as [-> | Hne].
    + injection Hloop as <- <-. rewrite Nat.sub_diag, Nat.add_0_r, state_after_0.
      split; [now symmetry |]. split; [exact Huser |].
      intros j Hj. replace j with 0%nat by lia.
      rewrite Nat.add_0_r, state_after_0. exists e1. split; [now symmetry | exact He].
    + destruct (shouldRetry types e1) eqn:He1; cbn [negb] in Hloop.
      * destruct (wait_before_retry_world (S attempt) w1) as (Hu3 & Hi3 & _).
        apply IH in Hloop; [| lia | exact He].
        rewrite Hu3, Huser, Hi3, Hinv, !state_after_next in Hloop.
        destruct Hloop as (Hlast & Hfinal & Hall).
        replace (S (n - S attempt)) with (n - attempt)%nat in * by lia.
        replace (S (invocations w) + (n - S attempt))%nat
          with (invocations w + (n - attempt))%nat in Hlast by lia.
        split; [exact Hlast |]. split; [exact Hfinal |].
        intros [| j] Hj.
        -- rewrite Nat.add_0_r, state_after_0. exists e1.
           split; [now symmetry | exact He1].
        -- destruct (Hall j) as (e_j & Hj1 & Hj2); [lia |].
           rewrite state_after_next in Hj1.
           replace (S (invocations w) + j)%nat with (invocations w + S j)%nat
             in Hj1 by lia.
           now exists e_j.
      * injection Hloop as <- <-. congruence.
Qed.

End IntegerBudget.

(** The delays waited during a run of the loop, in order. *)
Lemma loop_waits fuel : forall attempt w result w',
  loop env f types opts fuel attempt w = Some (result, w') ->
  exists k,
    waits w' =
    waits w ++ map (fun j => waited env opts (attempt + 1 + j) (draws w + j))
                   (seq 0 k).
Proof.
  induction fuel as [| fuel IH]; intros attempt w result w' Hloop.
  - simpl in Hloop. destruct (Qle_bool _ _); [discriminate |].
    injection Hloop as _ <-. exists 0%nat. simpl. now rewrite app_nil_r.
  - rewrite loop_step in Hloop.
    destruct (Qle_bool _ _);
      [| injection Hloop as _ <-; exists 0%nat; simpl; now rewrite app_nil_r].
    destruct (attempt_once_world w) as (_ & Hw1 & Hd1).
    destruct (attempt_once env f opts w) as [[r | e] w1]; simpl in Hw1, Hd1.
    + injection Hloop as _ <-. exists 0%nat. simpl. now rewrite app_nil_r.
    + destruct (strict_equal_number _ _);
        [injection Hloop as _ <-; exists 0%nat; simpl; now rewrite app_nil_r |].
      destruct (negb _);
        [injection Hloop as _ <-; exists 0%nat; simpl; now rewrite app_nil_r |].
      apply IH in Hloop. destruct Hloop as (k & Hk).
      destruct (wait_before_retry_world (S attempt) w1) as (_ & _ & Hw & Hd).
      exists (S k). rewrite Hk, Hw, Hw1, Hd1, <- app_assoc. f_equal.
      change (seq 0 (S k)) with (0%nat :: seq 1 k).
      rewrite <- seq_shift, map_cons, map_map. cbn [app].
      f_equal; [f_equal; lia |].
      apply map_ext. intros j.
      replace (attempt + 1 + S j)%nat with (S attempt + 1 + j)%nat by lia.
      rewrite Hd, Hd1. unfold waited.
      destruct (Qlt_bool 0 (to_number (jitter opts))); [| reflexivity].
      replace (draws w + S j)%nat with (S (draws w) + j)%nat by lia.
      reflexivity.
Qed.

(** With a numeric [maxRetries = n], the loop throws an error that the
    retryable set matches only from its last allowed attempt, number [n]:
    every attempt from [attempt] to [n] has then been made. *)
Lemma loop_throws_retryable_when_exhausted (n : nat) (q : Q) fuel :
  maxRetries opts = JNumber q -> (q == of_nat n)%Q ->
  forall attempt w e w',
    (attempt <= n)%nat ->
    loop env f types opts fuel attempt w = Some (Throw e, w') ->
    shouldRetry types e = true ->
    invocations w' = (invocations w + (n - attempt) + 1)%nat.
Proof.
  intros Hmax Hq.
  induction fuel as [| fuel IH]; intros attempt w e w' Ha Hloop He.
  - simpl in Hloop. destruct (Qle_bool _ _); discriminate.
  - rewrite loop_step, (@condition_holds n q Hmax Hq attempt Ha),
      (@last_attempt_test n q Hmax Hq) in Hloop.
    destruct (attempt_once_world w) as (Hi & _).
    destruct (attempt_once env f opts w) as [[r | e1] w1]; [discriminate |].
    simpl in Hi.
    destruct (Nat.eqb_spec attempt n) as [-> | Hne].
    + injection Hloop as <- <-. lia.
    + destruct (shouldRetry types e1) eqn:He1; cbn [negb] in Hloop.
      * apply IH in Hloop; [| lia | exact He].
        destruct (wait_before_retry_world (S attempt) w1) as (_ & Hi' & _).
        rewrite Hloop, Hi', Hi. lia.
      * injection Hloop as <- <-. congruence.
Qed.

(** With [maxRetries] given as a string, [attempt === maxRetries] never
    holds: the loop only throws errors that the retryable set does not
    match, and a run of retryable failures falls off the end of the loop. *)
Lemma loop_string_maxRetries (q : Q) fuel :
  maxRetries opts = JNumericString q ->
  forall attempt w e w',
    loop env f types opts fuel attempt w = Some (Throw e, w') ->
    shouldRetry types e = false.
Proof.
  intros Hmax.
  assert (Hnever : forall a, strict_equal_number a (maxRetries opts) = false)
    by (intros a; rewrite Hmax; reflexivity).
  induction fuel as [| fuel IH]; intros attempt w e w' Hloop.
  - simpl in Hloop. destruct (Qle_bool _ _); discriminate.
  - rewrite loop_step, Hnever in Hloop.
    destruct (Qle_bool _ _); [| discriminate].
    destruct (attempt_once env f opts w) as [[r | e1] w1]; [discriminate |].
    destruct (shouldRetry types e1) eqn:He1; cbn [negb] in Hloop.
    + now apply IH in Hloop.
    + injection Hloop as <- <-. exact He1.
Qed.

End EngineFacts.

(** Every call of [retry] ends: the fuel given to the loop suffices. *)
Lemma retry_terminates {St R : Type} env (asyncFn : FunctionArg St R)
    ErrorTypes options w :
  exists outcome w', retry env asyncFn ErrorTypes options w = Some (outcome, w').
Proof.
  destruct (retry env asyncFn ErrorTypes options w) as [[outcome w'] |] eqn:H;
    [eauto |].
  exfalso. unfold retry in H.
  destruct asyncFn as [f |]; [| discriminate].
  destruct ErrorTypes as [types |]; [| discriminate].
  destruct (_ || _); [discriminate |].
  destruct (Qlt_bool _ _); [discriminate |].
  destruct (Qlt_bool _ _); [discriminate |].
  revert H. apply loop_terminates. unfold iterations. lia.
Qed.

(** The delays waited during a call of [retry]: either none (the call was
    rejected by the validation) or those of the loop, under a configuration
    that passed the validation. *)
Lemma retry_waits {St R : Type} env (asyncFn : FunctionArg St R)
    ErrorTypes options w result w' :
  retry env asyncFn ErrorTypes options w = Some (result, w') ->
  waits w' = waits w \/
  (valid_options options /\
   exists k, waits w' =
             waits w ++ map (fun j => waited env options (1 + j) (draws w + j))
                            (seq 0 k)).
Proof.
  unfold retry. intros H.
  destruct asyncFn as [f |]; [| injection H as _ <-; now left].
  destruct ErrorTypes as [types |]; [| injection H as _ <-; now left].
  destruct (Qlt_bool (to_number (jitter options)) 0) eqn:Hj0;
    [injection H as _ <-; now left |].
  destruct (Qlt_bool 1 (to_number (jitter options))) eqn:Hj1;
    [injection H as _ <-; now left |].
  cbn [orb] in H.
  destruct (Qlt_bool (to_number (maxRetries options)) 0) eqn:Hm;
    [injection H as _ <-; now left |].
  destruct (Qlt_bool (to_number (retryInterval options)) 0) eqn:Hr;
    [injection H as _ <-; now left |].
  right. apply Qlt_bool_false_iff in Hj0, Hj1, Hm, Hr.
  split; [repeat split; assumption |].
  apply loop_waits in H. exact H.
Qed.

(** C3.  Under a valid policy with [maxRetries = n], an operation whose
    first [n + 1] calls all fail with errors that the retryable set matches,
    [failure j] being the error of call number [j + 1], is invoked exactly
    [n + 1] times, each call on the state left by the one before, with [n]
    waits in between; [retry] then fails with [failure n], the error of the
    last, [n + 1]-th, call, unchanged. *)
Theorem retry_exhausts_all_attempts :
  forall (St R : Type) (env : Environment)
         (f : St -> Completion (option R) * St) (types : list ErrorClass)
         (options : Options) (n : nat) (q : Q) (w : World St)
         (failure : nat -> Thrown),
    maxRetries options = JNumber q -> (q == of_nat n)%Q ->
    (0 <= to_number (jitter options) <= 1)%Q ->
    (0 <= to_number (retryInterval options))%Q ->
    (forall j, (j <= n)%nat ->
        attempt_outcome env f options (state_after f j (user w))
                        (invocations w + j) = Throw (failure j) /\
        shouldRetry types (failure j) = true) ->
    exists w',
      retry env (Callable f) (ErrorTypesArray types) options w =
        Some (Throw (failure n), w') /\
      user w' = state_after f (S n) (user w) /\
      invocations w' = (invocations w + n + 1)%nat /\
      List.length (waits w') = (List.length (waits w) + n)%nat.
Proof.
  intros St R env f types options n q w failure Hmax Hq Hjitter Hinterval Hfails.
  assert (Hvalid : valid_options options).
  { split; [exact Hjitter |]. split; [| exact Hinterval].
    rewrite Hmax. simpl. rewrite Hq. apply (of_nat_le 0 n), Nat.le_0_l. }
  rewrite (retry_valid env f types w Hvalid).
  assert (Hit : iterations options = S n).
  { unfold iterations. rewrite Hmax. simpl to_number.
    rewrite (Qfloor_comp _ _ Hq). unfold of_nat. rewrite Qfloor_Z.
    now rewrite Nat2Z.id. }
  apply (@loop_retryable_failures St R env f types options n q Hmax Hq n
           failure 0%nat w (iterations options)); [reflexivity | lia | exact Hfails].
Qed.

(** C5.  Under a valid policy and a non-empty retryable set, an operation
    whose first attempt fails with an error that no listed kind matches is
    invoked exactly once: [retry] fails at once with that very error, and no
    delay is waited. *)
Theorem retry_fails_fast_on_other_errors :
  forall (St R : Type) (env : Environment)
         (f : St -> Completion (option R) * St) (types : list ErrorClass)
         (options : Options) (w : World St) (e : Thrown),
    valid_options options ->
    types <> [] ->
    fst (attempt_once env f options w) = Throw e ->
    (forall ErrorType, In ErrorType types ->
       instanceof e ErrorType || class_eqb (constructor e) ErrorType = false) ->
    retry env (Callable f) (ErrorTypesArray types) options w =
      Some (Throw e, snd (attempt_once env f options w)) /\
    invocations (snd (attempt_once env f options w)) = S (invocations w) /\
    waits (snd (attempt_once env f options w)) = waits w /\
    draws (snd (attempt_once env f options w)) = draws w.
Proof.
  intros St R env f types options w e Hvalid Hne He Hother.
  split; [| apply attempt_once_world].
  rewrite (retry_valid env f types w Hvalid). unfold iterations.
  rewrite loop_step.
  destruct Hvalid as (_ & Hm & _).
  replace (Qle_bool (of_nat 0) (to_number (maxRetries options))) with true
    by (symmetry; apply Qle_bool_iff; exact Hm).
  destruct (attempt_once env f options w) as [result w1]. simpl in He. subst result.
  destruct (strict_equal_number _ _); [reflexivity |].
  assert (Hno : shouldRetry types e = false).
  { unfold shouldRetry. apply orb_false_iff. split.
    - destruct types; [now destruct Hne | reflexivity].
    - destruct (existsb _ types) eqn:Hex; [| reflexivity].
      apply existsb_exists in Hex. destruct Hex as (T & HT & Hmatch).
      rewrite (Hother T HT) in Hmatch. discriminate. }
  rewrite Hno. reflexivity.
Qed.

(** C7.  Whatever the operation, a call of [retry] with an invalid
    configuration (the operation not callable, the retryable kinds not an
    array, jitter outside [0,1], maxRetries negative or retryInterval
    negative) fails with a [TypeError] or a [RangeError] and leaves the
    world as it was: the operation has not been invoked, nothing was
    waited. *)
Theorem retry_rejects_invalid_configuration :
  forall (St R : Type) (env : Environment) (asyncFn : FunctionArg St R)
         (ErrorTypes : ErrorTypesArg) (options : Options) (w : World St),
    invalid_configuration asyncFn ErrorTypes options ->
    exists e,
      retry env asyncFn ErrorTypes options w = Some (Throw e, w) /\
      (constructor e = TypeErrorC \/ constructor e = RangeErrorC).
Proof.
  intros St R env asyncFn ErrorTypes options w Hinvalid. unfold retry.
  destruct asyncFn as [f |]; [| eexists; split; [reflexivity | now left]].
  destruct ErrorTypes as [types |]; [| eexists; split; [reflexivity | now left]].
  destruct (Qlt_bool (to_number (jitter options)) 0) eqn:Hj0;
    [eexists; split; [reflexivity | now right] |].
  destruct (Qlt_bool 1 (to_number (jitter options))) eqn:Hj1;
    [eexists; split; [reflexivity | now right] |].
  cbn [orb].
  destruct (Qlt_bool (to_number (maxRetries options)) 0) eqn:Hm;
    [eexists; split; [reflexivity | now right] |].
  destruct (Qlt_bool (to_number (retryInterval options)) 0) eqn:Hr;
    [eexists; split; [reflexivity | now right] |].
  exfalso.
  destruct Hinvalid as [H | [H | [H | [H | [H | H]]]]]; try discriminate;
    apply Qlt_bool_iff in H; congruence.
Qed.

(** The [i]-th delay waited by a call of [retry] that starts with no wait
    recorded: the configuration passed the validation, and the delay is the
    one computed for retry number [i]. *)
Lemma retry_nth_wait {St R : Type} env (asyncFn : FunctionArg St R)
    ErrorTypes options w result w' i d :
  retry env asyncFn ErrorTypes options w = Some (result, w') ->
  waits w = [] -> (1 <= i)%nat ->
  nth_error (waits w') (i - 1) = Some d ->
  valid_options options /\ d = waited env options i (draws w + (i - 1)).
Proof.
  intros Hrun Hfresh Hi Hnth.
  destruct (retry_waits _ _ _ _ _ Hrun) as [Hnone | (Hvalid & k & Hk)].
  - rewrite Hnone, Hfresh in Hnth. destruct (i - 1)%nat; discriminate.
  - split; [exact Hvalid |].
    rewrite Hk, Hfresh in Hnth. cbn [app] in Hnth.
    rewrite nth_error_map, nth_error_seq in Hnth.
    destruct (i - 1 <? k)%nat; [| discriminate].
    cbn [option_map] in Hnth. injection Hnth as <-.
    f_equal; lia.
Qed.

(** C8.  With backoff on and jitter 0 (and a non-negative cap), the delay
    waited before retry number [i], that is after the [i]-th failed attempt
    and before the [i+1]-th attempt, is
    [min(retryInterval * Math.pow(backoffMultiplier, i - 1), maxDelay)],
    the product being the one of doubles, whenever that power is not
    negative; it is exactly
    [min(retryInterval * backoffMultiplier^(i-1), maxDelay)] whenever the
    multiplier is not negative, [Math.pow] answers the power itself and the
    product is a double (as it is for whole numbers below 2^53). *)
Theorem backoff_delay_sequence :
  forall (St R : Type) (env : Environment) (asyncFn : FunctionArg St R)
         (ErrorTypes : ErrorTypesArg) (options : Options) (w : World St)
         (result : Completion (option R)) (w' : World St) (i : nat) (d : Q),
    backoff options = true ->
    (to_number (jitter options) == 0)%Q ->
    (0 <= to_number (maxDelay options))%Q ->
    retry env asyncFn ErrorTypes options w = Some (result, w') ->
    waits w = [] -> (1 <= i)%nat ->
    nth_error (waits w') (i - 1) = Some d ->
    ((0 <= power env (to_number (backoffMultiplier options)) (Z.of_nat i - 1))%Q ->
     (d == Qmin (Double.mul (to_number (retryInterval options))
                            (power env (to_number (backoffMultiplier options))
                                   (Z.of_nat i - 1)))
                (to_number (maxDelay options)))%Q) /\
    ((0 <= to_number (backoffMultiplier options))%Q ->
     (power env (to_number (backoffMultiplier options)) (Z.of_nat i - 1) ==
      to_number (backoffMultiplier options) ^ (Z.of_nat i - 1))%Q ->
     Double.representable
       (to_number (retryInterval options) *
        to_number (backoffMultiplier options) ^ (Z.of_nat i - 1)) ->
     (d == Qmin (to_number (retryInterval options) *
                 to_number (backoffMultiplier options) ^ (Z.of_nat i - 1))
                (to_number (maxDelay options)))%Q).
Proof.
  intros St R env asyncFn ErrorTypes options w result w' i d
         Hbackoff Hjitter Hcap Hrun Hfresh Hi Hnth.
  destruct (retry_nth_wait _ _ _ _ _ Hrun Hfresh Hi Hnth)
    as ((_ & _ & Hinterval) & ->).
  assert (Hdoubles :
            (0 <= power env (to_number (backoffMultiplier options)) (Z.of_nat i - 1))%Q ->
            (waited env options i (draws w + (i - 1)) ==
             Qmin (Double.mul (to_number (retryInterval options))
                     (power env (to_number (backoffMultiplier options))
                            (Z.of_nat i - 1)))
                  (to_number (maxDelay options)))%Q).
  { intros Hpow. unfold waited, capped_delay. rewrite Hbackoff.
    replace (Qlt_bool 0 (to_number (jitter options))) with false
      by (symmetry; apply Qlt_bool_false_iff; rewrite Hjitter; apply Qle_refl).
    apply Q.max_r. apply Q.min_glb; [| exact Hcap].
    apply DoubleFacts.fl_nonneg. now apply Qmult_le_0_compat. }
  split; [exact Hdoubles |].
  intros Hmult Hexact Hproduct.
  assert (Hpow : (0 <= power env (to_number (backoffMultiplier options))
                             (Z.of_nat i - 1))%Q)
    by (rewrite Hexact; now apply Qpower_0_le).
  rewrite (Hdoubles Hpow).
  assert (Hsame : (Double.mul (to_number (retryInterval options))
                     (power env (to_number (backoffMultiplier options))
                            (Z.of_nat i - 1)) ==
                   to_number (retryInterval options) *
                   to_number (backoffMultiplier options) ^ (Z.of_nat i - 1))%Q).
  { unfold Double.mul. apply DoubleFacts.fl_exact; [exact Hproduct |].
    now rewrite Hexact. }
  now rewrite Hsame.
Qed.

(** C10, amended.  When the options omit [jitter], the jitter factor is 1,
    so the delay [base] given by the backoff and cap formula, when it is
    positive (it, its half and its double being doubles), is replaced by
    [base + base * u - base / 2], computed in doubles, where [u] is the draw
    of [Math.random()] for that retry.  For [u] in [0, 1) this value lies in
    the closed range from [base / 2] to [3 * base / 2] (the latter being a
    double); when no operation rounds it is [base / 2 + base * u], in the
    half-open range from [base / 2] to [3 * base / 2]. *)
Theorem default_jitter_randomises_delays :
  forall (St R : Type) (env : Environment) (asyncFn : FunctionArg St R)
         (ErrorTypes : ErrorTypesArg) (options : Options),
    o_jitter options = None ->
    jitter options = JNumber 1 /\
    forall (w : World St) (result : Completion (option R)) (w' : World St)
           (i : nat) (d : Q),
      retry env asyncFn ErrorTypes options w = Some (result, w') ->
      waits w = [] -> (1 <= i)%nat ->
      nth_error (waits w') (i - 1) = Some d ->
      let base := capped_delay env options i in
      let u := random env (draws w + (i - 1)) in
      (0 < base)%Q -> (0 <= u < 1)%Q ->
      Double.representable base -> Double.representable (base / 2) ->
      Double.representable (2 * base) ->
      (d == Double.sub (Double.add base (Double.mul base u)) (base / 2))%Q /\
      (Double.representable ((3 # 2) * base) ->
       (base / 2 <= d <= (3 # 2) * base)%Q) /\
      (Double.representable (base * u) ->
       Double.representable (base + base * u) ->
       Double.representable (base / 2 + base * u) ->
       (d == base / 2 + base * u)%Q /\ (base / 2 <= d < (3 # 2) * base)%Q).
Proof.
  intros St R env asyncFn ErrorTypes options Hdefault.
  assert (Hone : jitter options = JNumber 1).
  { unfold jitter. now rewrite Hdefault. }
  split; [exact Hone |].
  intros w result w' i d Hrun Hfresh Hi Hnth base u.
  destruct (retry_nth_wait _ _ _ _ _ Hrun Hfresh Hi Hnth) as (_ & ->).
  unfold waited, with_jitter. rewrite Hone. cbn [to_number].
  change (Qlt_bool 0 1) with true. cbv iota.
  fold base. fold u. clearbody base u.
  intros Hbase [Hu0 Hu1] Rbase Rhalf Rdouble.
  unfold Double.sub, Double.add, Double.div, Double.mul.
  assert (Hhalf : (base / 2 == (1 # 2) * base)%Q) by field.
  assert (Hscaled : (Double.fl (base * 1) == base)%Q)
    by (apply DoubleFacts.fl_exact; [exact Rbase | ring]).
  assert (Hamount : (Double.fl (Double.fl (base * 1) * u) == Double.fl (base * u))%Q)
    by (apply DoubleFacts.fl_comp; now rewrite Hscaled).
  assert (Hhalved : (Double.fl (Double.fl (base * 1) / 2) == base / 2)%Q)
    by (apply DoubleFacts.fl_exact; [exact Rhalf | now rewrite Hscaled]).
  assert (Hsum : (Double.fl (base + Double.fl (Double.fl (base * 1) * u)) ==
                  Double.fl (base + Double.fl (base * u)))%Q)
    by (apply DoubleFacts.fl_comp; now rewrite Hamount).
  assert (Hvalue :
            (Double.fl (Double.fl (base + Double.fl (Double.fl (base * 1) * u)) -
                        Double.fl (Double.fl (base * 1) / 2)) ==
             Double.fl (Double.fl (base + Double.fl (base * u)) - base / 2))%Q)
    by (apply DoubleFacts.fl_comp; now rewrite Hsum, Hhalved).
  assert (Hprod : (0 <= base * u)%Q) by (apply Qmult_le_0_compat; lra).
  assert (Hless : (base * u < base)%Q) by nra.
  assert (Hja0 : (0 <= Double.fl (base * u))%Q) by now apply DoubleFacts.fl_nonneg.
  assert (Hja1 : (Double.fl (base * u) <= base)%Q)
    by (apply DoubleFacts.fl_le; [exact Rbase | lra]).
  assert (Ht0 : (base <= Double.fl (base + Double.fl (base * u)))%Q)
    by (apply DoubleFacts.fl_ge; [exact Rbase | lra]).
  assert (Ht1 : (Double.fl (base + Double.fl (base * u)) <= 2 * base)%Q)
    by (apply DoubleFacts.fl_le; [exact Rdouble | lra]).
  assert (Hlow : (base / 2 <=
                  Double.fl (Double.fl (base + Double.fl (base * u)) - base / 2))%Q)
    by (apply DoubleFacts.fl_ge; [exact Rhalf | lra]).
  rewrite Hvalue, Q.max_r by lra.
  split; [reflexivity |]. split.
  - intros Rtop. split; [exact Hlow |].
    apply DoubleFacts.fl_le; [exact Rtop | lra].
  - intros Rprod Rsum Rresult.
    assert (Hinner : (Double.fl (base + Double.fl (base * u)) == base + base * u)%Q).
    { apply DoubleFacts.fl_exact; [exact Rsum |].
      now rewrite (proj1 Rprod). }
    assert (Hexact : (Double.fl (Double.fl (base + Double.fl (base * u)) - base / 2)
                      == base / 2 + base * u)%Q).
    { apply DoubleFacts.fl_exact; [exact Rresult |]. rewrite Hinner. field. }
    split; [exact Hexact |]. rewrite Hexact. split; lra.
Qed.

(** The product of C8 rounds: with [retryInterval = 0.1] and a multiplier
    of 3 the second delay is the double 0.30000000000000004, which is not
    three times the double 0.1. *)
Lemma backoff_product_rounds :
  exists w',
    retry quarter (Callable alwaysFailingFunction) (ErrorTypesArray [NetworkError])
          tenths fresh =
      Some (Throw (mkThrown NetworkError "Always fails"), w') /\
    nth_error (waits w') 1 = Some (1351079888211149 # 4503599627370496) /\
    ~ (1351079888211149 # 4503599627370496 ==
       to_number (retryInterval tenths) *
       to_number (backoffMultiplier tenths) ^ (Z.of_nat 2 - 1))%Q.
Proof.
  eexists. split; [vm_compute; reflexivity |]. split; [reflexivity |].
  vm_compute. discriminate.
Qed.

(** C10 as stated fails: with [jitter] omitted, a delay of 30000 before
    jitter and a draw of [1 - 2^-53], which is below 1, the time waited is
    45000, three halves of the delay: the top of the range, which the
    half-open range leaves out. *)
Lemma default_jitter_reaches_the_top :
  o_jitter thirty_seconds = None /\
  (0 <= random almost_one 0 < 1)%Q /\
  capped_delay almost_one thirty_seconds 1 = 30000 /\
  (exists w',
     retry almost_one (Callable alwaysFailingFunction)
           (ErrorTypesArray [NetworkError]) thirty_seconds fresh =
       Some (Throw (mkThrown NetworkError "Always fails"), w') /\
     nth_error (waits w') 0 = Some 45000) /\
  ~ (45000 < (3 # 2) * capped_delay almost_one thirty_seconds 1)%Q.
Proof.
  split; [reflexivity |].
  split; [split; vm_compute; [discriminate | reflexivity] |].
  split; [vm_compute; reflexivity |].
  split; [eexists; split; [vm_compute; reflexivity | reflexivity] |].
  vm_compute. discriminate.
Qed.

Lemma retry_exhausts_all_attempts_witness :
  exists w',
    retry quarter (Callable numberedFailingFunction)
          (ErrorTypesArray [NetworkError]) two_retries fresh =
      Some (Throw (mkThrown NetworkError "fail 3"), w') /\
    user w' = state_after numberedFailingFunction 3 (user fresh) /\
    invocations w' = (invocations fresh + 2 + 1)%nat /\
    List.length (waits w') = (List.length (waits fresh) + 2)%nat.
Proof.
  apply (@retry_exhausts_all_attempts nat string quarter numberedFailingFunction
           [NetworkError] two_retries 2 2 fresh
           (fun j => numbered_failure (S j))).
  - reflexivity.
  - reflexivity.
  - split; discriminate.
  - discriminate.
  - intros j Hj. destruct j as [| [| [| j]]].
    + split; reflexivity.
    + split; reflexivity.
    + split; reflexivity.
    + exfalso. apply (Nat.lt_irrefl 2).
      eapply Nat.lt_le_trans; [| exact Hj]. apply le_n_S, le_n_S, le_n_S, Nat.le_0_l.
Defined.

Lemma retry_fails_fast_on_other_errors_witness :
  retry quarter (Callable timeoutFunction) (ErrorTypesArray [NetworkError])
        two_retries fresh =
    Some (Throw (mkThrown TimeoutError "Request timed out"),
          snd (attempt_once quarter timeoutFunction two_retries fresh)) /\
  invocations (snd (attempt_once quarter timeoutFunction two_retries fresh)) = 1%nat /\
  waits (snd (attempt_once quarter timeoutFunction two_retries fresh)) = [] /\
  draws (snd (attempt_once quarter timeoutFunction two_retries fresh)) = 0%nat.
Proof.
  apply (@retry_fails_fast_on_other_errors nat string quarter timeoutFunction
           [NetworkError] two_retries fresh
           (mkThrown TimeoutError "Request timed out")).
  - split; [split; discriminate |]. split; discriminate.
  - discriminate.
  - reflexivity.
  - intros ErrorType [<- | []]. reflexivity.
Defined.

Lemma retry_rejects_invalid_configuration_witness :
  exists e,
    retry quarter (Callable alwaysFailingFunction) (ErrorTypesArray [])
          jitter_two fresh = Some (Throw e, fresh) /\
    (constructor e = TypeErrorC \/ constructor e = RangeErrorC).
Proof.
  apply (@retry_rejects_invalid_configuration nat string quarter
           (Callable alwaysFailingFunction) (ErrorTypesArray []) jitter_two fresh).
  right. right. right. left. reflexivity.
Defined.

Lemma backoff_delay_sequence_witness :
  (30 == Qmin (Double.mul (to_number (retryInterval capped_backoff))
                 (power quarter (to_number (backoffMultiplier capped_backoff))
                        (Z.of_nat 3 - 1)))
              (to_number (maxDelay capped_backoff)))%Q /\
  (30 == Qmin (to_number (retryInterval capped_backoff) *
               to_number (backoffMultiplier capped_backoff) ^ (Z.of_nat 3 - 1))
              (to_number (maxDelay capped_backoff)))%Q.
Proof.
  assert (Hrun : retry quarter (Callable alwaysFailingFunction)
                   (ErrorTypesArray [NetworkError]) capped_backoff fresh =
                 Some (Throw (mkThrown NetworkError "Always fails"),
                       mkWorld 4%nat 4 [10; 20; 30] 0))
    by (vm_compute; reflexivity).
  assert (Hcap : (0 <= to_number (maxDelay capped_backoff))%Q) by discriminate.
  destruct (@backoff_delay_sequence nat string quarter
              (Callable alwaysFailingFunction) (ErrorTypesArray [NetworkError])
              capped_backoff fresh _ _ 3 30 eq_refl (Qeq_refl 0) Hcap Hrun eq_refl
              (le_S _ _ (le_S _ _ (le_n 1))) eq_refl)
    as [Hdoubles Hexact].
  split.
  - apply Hdoubles. vm_compute. discriminate.
  - apply Hexact.
    + discriminate.
    + vm_compute. reflexivity.
    + split; vm_compute; reflexivity.
Defined.

Lemma default_jitter_randomises_delays_witness :
  jitter two_retries = JNumber 1 /\
  ((15 # 2) == Double.sub (Double.add (capped_delay quarter two_retries 1)
                             (Double.mul (capped_delay quarter two_retries 1)
                                         (random quarter 0)))
                          (capped_delay quarter two_retries 1 / 2))%Q /\
  (capped_delay quarter two_retries 1 / 2 <= 15 # 2 <=
   (3 # 2) * capped_delay quarter two_retries 1)%Q /\
  ((15 # 2) == capped_delay quarter two_retries 1 / 2 +
               capped_delay quarter two_retries 1 * random quarter 0)%Q /\
  (capped_delay quarter two_retries 1 / 2 <= 15 # 2 <
   (3 # 2) * capped_delay quarter two_retries 1)%Q.
Proof.
  destruct (@default_jitter_randomises_delays nat string quarter
              (Callable alwaysFailingFunction) (ErrorTypesArray [NetworkError])
              two_retries eq_refl) as [Hone Hdelays].
  split; [exact Hone |].
  assert (Hrun : retry quarter (Callable alwaysFailingFunction)
                   (ErrorTypesArray [NetworkError]) two_retries fresh =
                 Some (Throw (mkThrown NetworkError "Always fails"),
                       mkWorld 3%nat 3 [15 # 2; 15] 2))
    by (vm_compute; reflexivity).
  destruct (Hdelays fresh _ _ 1%nat (15 # 2) Hrun eq_refl (le_n 1) eq_refl)
    as (Hformula & Hclosed & Hopen).
  - vm_compute. reflexivity.
  - split; [discriminate | reflexivity].
  - split; vm_compute; reflexivity.
  - split; vm_compute; reflexivity.
  - split; vm_compute; reflexivity.
  - split; [exact Hformula |].
    split; [apply Hclosed | apply Hopen]; split; vm_compute; reflexivity.
Defined.

End RetryFacts.

(* ===================================================================== *)
(** ** Properties of the rate-obtaining step                              *)
(* ===================================================================== *)

Module HandlerFacts.

Import Rules Retry RetrySpec RetryFacts Handler HandlerSpec.

(** For the retryable set of the step, [shouldRetry] is [instanceof]. *)
Lemma shouldRetry_NoSuitableRates e :
  shouldRetry [NoSuitableRatesErrorC] e = instanceof e NoSuitableRatesErrorC.
Proof.
  unfold shouldRetry, instanceof. destruct (constructor e); reflexivity.
Qed.

(** What [search] throws was thrown by the retry loop or by the validation
    of [retry]; an instance of [NoSuitableRatesError] can only come from the
    loop. *)
Lemma search_throws_from_loop bun env easypost e w :
  search bun env easypost = Some (Throw e, w) ->
  instanceof e NoSuitableRatesErrorC = true ->
  loop env (quote_and_select easypost) [NoSuitableRatesErrorC]
       (retry_options bun) (iterations (retry_options bun)) 0 start =
  Some (Throw e, w).
Proof.
  unfold search, retry. intros H He.
  destruct (_ || _); [injection H as <- _; discriminate |].
  destruct (Qlt_bool _ _); [injection H as <- _; discriminate |].
  destruct (Qlt_bool _ _); [injection H as <- _; discriminate |].
  exact H.
Qed.

(** The step always ends. *)
Lemma obtain_rate_terminates bun env easypost order sendMail :
  exists r, obtain_rate bun env easypost order sendMail = Some r.
Proof.
  unfold obtain_rate.
  destruct (retry_terminates env (Callable (quote_and_select easypost))
              (ErrorTypesArray [NoSuitableRatesErrorC]) (retry_options bun) start)
    as (result & w & Hs).
  unfold search. rewrite Hs.
  destruct result as [chosenRate | e]; [eauto |].
  destruct (instanceof e NoSuitableRatesErrorC); eauto.
Qed.

(** An error of [retry] that is no [NoSuitableRatesError] is dropped by the
    [catch] block: the step goes on to the purchase with [chosenRate]
    undefined, and fails there with a [TypeError]. *)
Lemma other_failure_is_replaced bun env easypost order sendMail e w :
  search bun env easypost = Some (Throw e, w) ->
  instanceof e NoSuitableRatesErrorC = false ->
  exists r msg,
    obtain_rate bun env easypost order sendMail = Some r /\
    effects r = [] /\
    outcome r = Throw (mkThrown TypeErrorC msg).
Proof.
  intros Hs He. unfold obtain_rate. rewrite Hs, He. unfold buy.
  destruct (shipmentResponse (user w)); eexists; eexists;
    (split; [reflexivity |]); split; reflexivity.
Qed.

(** C2 (the code departs from it).  When [easypost.createShipment] rejects
    with a network error, [retry] rejects with that error, which is no
    [NoSuitableRatesError]; the [catch] block drops it, the step goes on to
    the purchase and fails there with a [TypeError] instead of the original
    error, whatever the mail client does. *)
Theorem other_failure_is_swallowed :
  (exists w, search bare_env steady unreachable_api = Some (Throw connection_reset, w)) /\
  instanceof connection_reset NoSuitableRatesErrorC = false /\
  forall sendMail : EmailMessage -> Completion unit,
  exists r,
    obtain_rate bare_env steady unreachable_api an_order sendMail = Some r /\
    outcome r =
      Throw (mkThrown TypeErrorC
               "undefined is not an object (evaluating 'shipmentResponse.id')") /\
    outcome r <> Throw connection_reset /\
    effects r = [].
Proof.
  split; [eexists; vm_compute; reflexivity |].
  split; [reflexivity |].
  intros sendMail. eexists. split; [vm_compute; reflexivity |].
  cbn. repeat split; discriminate.
Qed.

(** C4 as stated fails: with [SEND_LIVE_EMAILS] unset, a search that used up
    its four attempts on [NoSuitableRatesError] sends no mail. *)
Lemma escalation_without_notification :
  ~ escalation_as_stated bare_env steady only_slow_rates an_order delivers.
Proof.
  intros H.
  assert (Hs : exists w, search bare_env steady only_slow_rates =
                         Some (Throw no_two_day_rates, w))
    by (eexists; vm_compute; reflexivity).
  destruct Hs as (w & Hs).
  destruct (H _ _ Hs eq_refl) as (r & m & Hr & Hin & _).
  unfold obtain_rate in Hr. rewrite Hs in Hr. cbn in Hr.
  injection Hr as <-. cbn in Hin. destruct Hin as [Hin | []]. discriminate.
Qed.

(** Nor is the [NoSuitableRatesError] always the error raised: with
    [SEND_LIVE_EMAILS=true] and a mail client that rejects, the rejection
    of the mail client is raised in its place. *)
Lemma mail_failure_replaces_the_error :
  exists r,
    obtain_rate live_env steady only_slow_rates an_order mail_down = Some r /\
    outcome r = Throw connection_refused /\
    effects r =
      [SendMail (emailMessage live_env an_order (Some five_day_response)
                              no_two_day_rates)].
Proof.
  eexists. split; [vm_compute; reflexivity |]. split; reflexivity.
Qed.

(** No timeout is armed by the step: an attempt yields what the closure
    yields. *)
Lemma attempt_of_the_step bun env easypost (w : World Captured) :
  attempt_once env (quote_and_select easypost) (retry_options bun) w =
  (fst (quote_and_select easypost (user w)),
   mkWorld (snd (quote_and_select easypost (user w)))
           (S (invocations w)) (waits w) (draws w)).
Proof.
  unfold attempt_once. destruct (quote_and_select easypost (user w)).
  reflexivity.
Qed.

Lemma attempt_outcome_of_the_step bun env easypost c done :
  attempt_outcome env (quote_and_select easypost) (retry_options bun) c done =
  fst (quote_and_select easypost c).
Proof.
  unfold attempt_outcome. now rewrite attempt_of_the_step.
Qed.

(** While [easypost.createShipment] answers, the closure holds the number
    of its calls and the response of the latest. *)
Lemma captured_after easypost (response : nat -> Shipment) j :
  (forall i, (i < j)%nat -> easypost i = Return (response i)) ->
  state_after (quote_and_select easypost) j (user start) =
  mkCaptured j (match j with
                | O => None
                | S i => Some (response i)
                end).
Proof.
  induction j as [| j IH]; intros Hcalls; [reflexivity |].
  rewrite state_after_succ, IH by (intros i Hi; apply Hcalls; lia).
  unfold quote_and_select. cbn [createShipment_calls shipmentResponse].
  rewrite (Hcalls j) by lia. destruct (rates (response j)); reflexivity.
Qed.

(** With [SHIPPING_RATE_SEARCH_RETRIES] unset the budget is the number 3. *)
Lemma default_budget bun :
  SHIPPING_RATE_SEARCH_RETRIES bun = None ->
  maxRetries (retry_options bun) = JNumber 3.
Proof.
  intros Hunset. unfold maxRetries, retry_options. cbn. now rewrite Hunset.
Qed.

(** C4, amended.  With [SHIPPING_RATE_SEARCH_RETRIES] unset (a budget of
    three retries) and a retry interval that is not negative (or [retry]
    makes no attempt): when the budget is used up on [NoSuitableRatesError],
    that is when each of the four quoting responses is rejected by [rules],
    the step composes one notification from the last quoting response and
    the last error, hands it to the mail client when [SEND_LIVE_EMAILS] is
    "true" and only logs it otherwise, and then raises that same last
    [NoSuitableRatesError], unless the awaited mail client rejects: its
    rejection is then raised instead.  A notification is composed, and a
    [NoSuitableRatesError] raised, in that situation only: after four calls
    of the closure that each threw a [NoSuitableRatesError]. *)
Theorem no_suitable_rates_is_notified_and_rethrown :
  forall (bun : BunEnv) (env : Environment)
         (easypost : nat -> Completion Shipment) (order : Order)
         (sendMail : EmailMessage -> Completion unit),
    SHIPPING_RATE_SEARCH_RETRIES bun = None ->
    (forall (response : nat -> Shipment) (failure : nat -> Thrown)
            (m : EmailMessage),
        (0 <= to_number (retryInterval (retry_options bun)))%Q ->
        exhausted_on_no_suitable_rates easypost 3 response failure ->
        m = emailMessage bun order (Some (response 3%nat)) (failure 3%nat) ->
        exists r,
          obtain_rate bun env easypost order sendMail = Some r /\
          invocations (final r) = 4%nat /\
          shipmentResponse (user (final r)) = Some (response 3%nat) /\
          (SEND_LIVE_EMAILS bun <> Some "true"%string ->
           effects r = [LogWouldHaveSent m] /\
           outcome r = Throw (failure 3%nat)) /\
          (SEND_LIVE_EMAILS bun = Some "true"%string ->
           effects r = [SendMail m] /\
           (forall u, sendMail m = Return u -> outcome r = Throw (failure 3%nat)) /\
           (forall e, sendMail m = Throw e -> outcome r = Throw e))) /\
    (forall r,
        obtain_rate bun env easypost order sendMail = Some r ->
        (effects r <> [] \/
         exists e, outcome r = Throw e /\ instanceof e NoSuitableRatesErrorC = true) ->
        effects r <> [] /\
        invocations (final r) = 4%nat /\
        forall j, (j <= 3)%nat -> exists e_j,
          fst (quote_and_select easypost
                 (state_after (quote_and_select easypost) j (user start))) =
            Throw e_j /\
          instanceof e_j NoSuitableRatesErrorC = true).
Proof.
  intros bun env easypost order sendMail Hunset.
  pose proof (default_budget bun Hunset) as Hmax.
  split.
  - intros response failure m Hinterval Hexhausted ->.
    assert (Hvalid : valid_options (retry_options bun)).
    { split; [split; discriminate |]. split; [| exact Hinterval].
      rewrite Hmax. discriminate. }
    assert (Hcalls : forall j, (j <= 4)%nat ->
               state_after (quote_and_select easypost) j (user start) =
               mkCaptured j (match j with
                             | O => None
                             | S i => Some (response i)
                             end)).
    { intros j Hj. apply captured_after. intros i Hi.
      apply (Hexhausted i). lia. }
    destruct (@loop_retryable_failures _ _ env (quote_and_select easypost)
                [NoSuitableRatesErrorC] (retry_options bun) 3 3 Hmax (Qeq_refl 3)
                3 failure 0%nat start (iterations (retry_options bun)))
      as (w & Hloop & Huser & Hinv & _).
    + reflexivity.
    + unfold iterations. rewrite Hmax. apply Nat.lt_succ_diag_r.
    + intros j Hj. destruct (Hexhausted j Hj) as (Hcall & Hrates & Hrules & Hkind).
      rewrite attempt_outcome_of_the_step, Hcalls by lia.
      unfold quote_and_select. cbn [createShipment_calls]. rewrite Hcall.
      destruct (rates (response j)); [| now destruct Hrates].
      split; [exact Hrules |]. now rewrite shouldRetry_NoSuitableRates.
    + rewrite Hcalls in Huser by lia.
      destruct (Hexhausted 3%nat (Nat.le_refl 3)) as (_ & _ & _ & Hkind).
      unfold obtain_rate, search. rewrite (retry_valid _ _ _ _ Hvalid), Hloop, Hkind.
      rewrite Huser. cbn [shipmentResponse].
      eexists. split; [reflexivity |]. cbn [final outcome effects].
      split; [exact Hinv |]. split; [now rewrite Huser |].
      unfold escalate, notify. split.
      * intros Hlive. destruct (SEND_LIVE_EMAILS bun) as [v |]; [| now split].
        destruct (String.eqb_spec v "true") as [-> | Hne];
          [now destruct Hlive | now split].
      * intros ->. cbn. split; [reflexivity |]. split.
        -- intros u ->. reflexivity.
        -- intros e ->. reflexivity.
  - intros r Hr Hescalated.
    assert (Hbuy : forall held chosen e,
               buy held chosen = Throw e ->
               instanceof e NoSuitableRatesErrorC = false).
    { intros held chosen e. unfold buy.
      destruct held; [destruct chosen |]; try discriminate;
        intros H; injection H as <-; reflexivity. }
    unfold obtain_rate in Hr.
    destruct (search bun env easypost) as [[[chosenRate | e] w] |] eqn:Hs;
      [| | discriminate].
    + exfalso. injection Hr as <-. cbn [effects outcome] in Hescalated.
      destruct Hescalated as [Hne | (e & Hout & He)]; [now apply Hne |].
      rewrite (Hbuy _ _ _ Hout) in He. discriminate.
    + destruct (instanceof e NoSuitableRatesErrorC) eqn:He.
      * injection Hr as <-. cbn [effects final]. split; [discriminate |].
        pose proof (search_throws_from_loop _ _ _ Hs He) as Hloop.
        assert (Hretry : shouldRetry [NoSuitableRatesErrorC] e = true)
          by now rewrite shouldRetry_NoSuitableRates.
        split.
        -- apply (@loop_throws_retryable_when_exhausted _ _ env
                    (quote_and_select easypost) [NoSuitableRatesErrorC]
                    (retry_options bun) 3 3 _ Hmax (Qeq_refl 3) 0%nat start e w
                    (Nat.le_0_l 3) Hloop Hretry).
        -- destruct (@loop_exhausted _ _ env (quote_and_select easypost)
                       [NoSuitableRatesErrorC] (retry_options bun) 3 3 Hmax
                       (Qeq_refl 3) _ 0%nat start e w (Nat.le_0_l 3) Hloop Hretry)
             as (_ & _ & Hall).
           intros j Hj. destruct (Hall j) as (e_j & Hj1 & Hj2); [lia |].
           rewrite attempt_outcome_of_the_step in Hj1.
           rewrite shouldRetry_NoSuitableRates in Hj2. now exists e_j.
      * exfalso. injection Hr as <-. cbn [effects outcome] in Hescalated.
        destruct Hescalated as [Hne | (e' & Hout & He')]; [now apply Hne |].
        rewrite (Hbuy _ _ _ Hout) in He'. discriminate.
Qed.

Lemma no_suitable_rates_is_notified_and_rethrown_witness :
  (exists r,
     obtain_rate bare_env steady only_slow_rates an_order delivers = Some r /\
     invocations (final r) = 4%nat /\
     shipmentResponse (user (final r)) = Some five_day_response /\
     effects r =
       [LogWouldHaveSent
          (emailMessage bare_env an_order (Some five_day_response)
                        no_two_day_rates)] /\
     outcome r = Throw no_two_day_rates) /\
  (exists r,
     obtain_rate live_env steady only_slow_rates an_order mail_down = Some r /\
     invocations (final r) = 4%nat /\
     effects r =
       [SendMail
          (emailMessage live_env an_order (Some five_day_response)
                        no_two_day_rates)] /\
     outcome r = Throw connection_refused) /\
  (exists r,
     obtain_rate bare_env steady only_slow_rates an_order delivers = Some r /\
     effects r <> [] /\
     invocations (final r) = 4%nat /\
     forall j, (j <= 3)%nat -> exists e_j,
       fst (quote_and_select only_slow_rates
              (state_after (quote_and_select only_slow_rates) j (user start))) =
         Throw e_j /\
       instanceof e_j NoSuitableRatesErrorC = true).
Proof.
  assert (Hexhausted : exhausted_on_no_suitable_rates only_slow_rates 3
                         (fun _ => five_day_response) (fun _ => no_two_day_rates)).
  { intros j _. split; [reflexivity |]. split; [discriminate |].
    split; reflexivity. }
  assert (Hbare : (0 <= to_number (retryInterval (retry_options bare_env)))%Q)
    by discriminate.
  assert (Hlive_env : (0 <= to_number (retryInterval (retry_options live_env)))%Q)
    by discriminate.
  split; [| split].
  - destruct (proj1 (@no_suitable_rates_is_notified_and_rethrown
                       bare_env steady only_slow_rates an_order delivers eq_refl)
                    (fun _ => five_day_response) (fun _ => no_two_day_rates)
                    (emailMessage bare_env an_order (Some five_day_response)
                                  no_two_day_rates)
                    Hbare Hexhausted eq_refl)
      as (r & Hr & Hcalls & Hheld & Hlogged & _).
    destruct Hlogged as [Heffects Houtcome]; [discriminate |].
    exists r. repeat split; assumption.
  - destruct (proj1 (@no_suitable_rates_is_notified_and_rethrown
                       live_env steady only_slow_rates an_order mail_down eq_refl)
                    (fun _ => five_day_response) (fun _ => no_two_day_rates)
                    (emailMessage live_env an_order (Some five_day_response)
                                  no_two_day_rates)
                    Hlive_env Hexhausted eq_refl)
      as (r & Hr & Hcalls & _ & _ & Hlive).
    destruct (Hlive eq_refl) as (Heffects & _ & Hfailed).
    exists r. split; [exact Hr |]. split; [exact Hcalls |].
    split; [exact Heffects |]. apply Hfailed. reflexivity.
  - destruct (obtain_rate_terminates bare_env steady only_slow_rates an_order
                delivers) as (r & Hr).
    exists r. split; [exact Hr |].
    apply (proj2 (@no_suitable_rates_is_notified_and_rethrown
                    bare_env steady only_slow_rates an_order delivers eq_refl)
                 r Hr).
    left. vm_compute in Hr. injection Hr as <-. discriminate.
Defined.

(** When [SHIPPING_RATE_SEARCH_RETRIES] is set, [maxRetries] reaches [retry]
    as a string and [attempt === maxRetries] never holds: a search that uses
    up its attempts on [NoSuitableRatesError] resolves to [undefined], so the
    step neither notifies nor raises a [NoSuitableRatesError]. *)
Lemma string_budget_never_escalates bun env easypost order sendMail q r :
  SHIPPING_RATE_SEARCH_RETRIES bun = Some q ->
  obtain_rate bun env easypost order sendMail = Some r ->
  effects r = [] /\
  forall e, outcome r = Throw e -> instanceof e NoSuitableRatesErrorC = false.
Proof.
  intros Hset Hr.
  assert (Hsearch : forall e w,
             search bun env easypost = Some (Throw e, w) ->
             instanceof e NoSuitableRatesErrorC = false).
  { intros e w Hs.
    destruct (instanceof e NoSuitableRatesErrorC) eqn:He; [| reflexivity].
    pose proof (search_throws_from_loop _ _ _ Hs He) as Hloop.
    apply (@loop_string_maxRetries _ _ env (quote_and_select easypost)
             [NoSuitableRatesErrorC] (retry_options bun) q) in Hloop.
    - rewrite shouldRetry_NoSuitableRates in Hloop. congruence.
    - unfold maxRetries, retry_options. cbn. now rewrite Hset. }
  assert (Hbuy : forall sr chosen e,
             buy sr chosen = Throw e -> instanceof e NoSuitableRatesErrorC = false).
  { intros sr chosen e. unfold buy.
    destruct sr; [destruct chosen |]; try discriminate;
      intros H; injection H as <-; reflexivity. }
  unfold obtain_rate in Hr.
  destruct (search bun env easypost) as [[[chosenRate | e'] w] |] eqn:Hs;
    [| | discriminate].
  - injection Hr as <-. cbn. split; [reflexivity |]. apply Hbuy.
  - rewrite (Hsearch e' w eq_refl) in Hr. injection Hr as <-. cbn.
    split; [reflexivity |]. apply Hbuy.
Qed.

(** For instance, with [SHIPPING_RATE_SEARCH_RETRIES=1] and a quoting
    service that only offers five-day rates, both attempts are made, nothing
    is notified, and the step fails at the purchase with a [TypeError]. *)
Lemma string_budget_example :
  exists r,
    obtain_rate one_retry_env steady only_slow_rates an_order delivers = Some r /\
    invocations (final r) = 2%nat /\
    effects r = [] /\
    outcome r =
      Throw (mkThrown TypeErrorC
               "undefined is not an object (evaluating 'chosenRate.id')").
Proof.
  eexists. split; [vm_compute; reflexivity |]. cbn. repeat split.
Qed.

End HandlerFacts.

(* ===================================================================== *)
(** ** Further properties of the rate selection rule                      *)
(* ===================================================================== *)

Module RulesMore.

Import Jsonata Rules RulesSpec MoreSpec JsFacts RulesFacts.

Lemma filter_fuse (f g : Quote -> bool) l :
  filter f (filter g l) = filter (fun x => g x && f x) l.
Proof.
  induction l as [| a l IH]; [reflexivity |]. simpl.
  destruct (g a); simpl; [destruct (f a) |]; now rewrite IH.
Qed.

Lemma filter_swap (f g : Quote -> bool) l :
  filter f (filter g l) = filter g (filter f l).
Proof.
  rewrite !filter_fuse. apply filter_ext. intros x. apply andb_comm.
Qed.

Lemma filter_all (f : Quote -> bool) l :
  (forall x, In x l -> f x = true) -> filter f l = l.
Proof.
  induction l as [| a l IH]; intros H; [reflexivity |]. simpl.
  rewrite (H a (or_introl eq_refl)). f_equal. apply IH.
  intros x Hx. apply H. now right.
Qed.

Lemma filter_none (f : Quote -> bool) l :
  (forall x, In x l -> f x = false) -> filter f l = [].
Proof.
  induction l as [| a l IH]; intros H; [reflexivity |]. simpl.
  rewrite (H a (or_introl eq_refl)). apply IH.
  intros x Hx. apply H. now right.
Qed.

(** Whatever the rates, a merge that succeeds rearranges its arguments. *)
Lemma merge_permutation l : forall r m,
  merge l r = Return m -> Permutation (l ++ r) m.
Proof.
  induction l as [| a l IHl]; intros r m H.
  - destruct r; simpl in H; injection H as <-; reflexivity.
  - revert m H. induction r as [| b r IHr]; intros m H.
    + rewrite merge_nil_r in H. injection H as <-. now rewrite app_nil_r.
    + rewrite merge_cons in H.
      destruct (comparator a b) as [[|] | e]; [| | discriminate].
      * destruct (merge (a :: l) r) as [rest | e] eqn:Hm; [| discriminate].
        injection H as <-. rewrite <- (IHr rest eq_refl).
        symmetry. apply Permutation_middle.
      * destruct (merge l (b :: r)) as [rest | e] eqn:Hm; [| discriminate].
        injection H as <-. simpl. constructor. now apply IHl.
Qed.

(** Whatever the rates, a sort that succeeds rearranges its argument. *)
Lemma msort_permutation : forall n array m,
  (List.length array <= n)%nat -> msort array = Return m -> Permutation array m.
Proof.
  induction n as [| n IHn]; intros array m Hlen H.
  - destruct array; [| simpl in Hlen; inversion Hlen].
    simp msort in H. injection H as <-. constructor.
  - destruct array as [| q1 [| q2 qs]].
    + simp msort in H. injection H as <-. constructor.
    + simp msort in H. injection H as <-. reflexivity.
    + simp msort in H. cbv zeta in H.
      set (array := q1 :: q2 :: qs) in *.
      set (middle := Nat.div2 (List.length array)) in *.
      assert (Hmid : (0 < middle < List.length array)%nat).
      { subst middle array. simpl List.length.
        split; [simpl; apply Nat.lt_0_succ |].
        apply Nat.lt_div2, Nat.lt_0_succ. }
      destruct (msort (firstn middle array)) as [l |] eqn:Hl; [| discriminate].
      destruct (msort (skipn middle array)) as [r |] eqn:Hr; [| discriminate].
      apply IHn in Hl; [apply IHn in Hr |].
      * apply merge_permutation in H.
        rewrite <- H, <- Hl, <- Hr. now rewrite firstn_skipn.
      * rewrite length_skipn. lia.
      * rewrite length_firstn. lia.
Qed.

(** X1.  Whenever [rules] returns a rate id, it is the id of one of the
    quotes of the shipment, and that quote is delivered in two days or less
    and, beyond zone 2, is not carried by USPS. *)
Theorem rules_returns_an_offered_eligible_quote :
  forall (s : Shipment) (rate_id : string),
    rules s = Return (Some rate_id) ->
    exists quotes q,
      rates s = Some quotes /\ In q quotes /\ id q = rate_id /\
      eligible (usps_zone s) q.
Proof.
  intros s rate_id H. rewrite rules_unfold in H.
  destruct (rates s) as [quotes |] eqn:Hrates;
    [| destruct (evaluate None) as [[sorted |] | e] eqn:He;
       [discriminate He | discriminate | discriminate]].
  assert (H' : match evaluate (Some quotes) with
               | Return (Some sorted) =>
                   match hd_error (candidates (usps_zone s) sorted) with
                   | Some q => Return (Some (id q))
                   | None => Throw (NoSuitableRatesError "chosenRate: undefined")
                   end
               | Return None => Throw (NoSuitableRatesError "No rates for 2 days or less")
               | Throw e => Throw e
               end = Return (Some rate_id))
    by (destruct quotes; [discriminate | exact H]).
  clear H. rewrite evaluate_unfold in H'.
  destruct (filter within_two_days quotes) as [| q0 qs] eqn:Hf; [discriminate |].
  destruct (msort (q0 :: qs)) as [sorted | e] eqn:Hsort; [| discriminate].
  destruct (hd_error (candidates (usps_zone s) sorted)) as [h |] eqn:Hh;
    [| discriminate].
  injection H' as <-.
  apply (@msort_permutation _ _ _ (Nat.le_refl _)) in Hsort.
  rewrite <- Hf in Hsort.
  assert (Hin : In h (candidates (usps_zone s) sorted))
    by (destruct (candidates (usps_zone s) sorted);
        [discriminate | injection Hh as ->; now left]).
  apply (eligible_candidate (usps_zone s) quotes h Hsort) in Hin.
  exists quotes, h. repeat split; try apply Hin.
Qed.

Lemma rules_returns_an_offered_eligible_quote_witness :
  exists quotes q,
    rates (mkShipment "shp_2" (Some example_quotes) 3) = Some quotes /\
    In q quotes /\ id q = "rate_2"%string /\ eligible 3 q.
Proof.
  apply (rules_returns_an_offered_eligible_quote
           (mkShipment "shp_2" (Some example_quotes) 3)).
  reflexivity.
Defined.

Lemma no_quote_priced_below p l :
  Forall (fun x => (p < price x)%Q) l -> filter (priced_at p) l = [].
Proof.
  intros H. apply filter_none. intros x Hx.
  rewrite Forall_forall in H. specialize (H x Hx). unfold priced_at.
  destruct (Qeq_bool (price x) p) eqn:He; [| reflexivity].
  apply Qeq_bool_eq in He. rewrite He in H. now destruct (Qlt_irrefl p).
Qed.

(** The merge keeps the quotes of one price in the order "left before
    right", each side in its own order. *)
Lemma merge_stable p l : forall r m,
  Forall priced l -> Forall priced r -> StronglySorted cheaper_eq l ->
  merge l r = Return m ->
  filter (priced_at p) m = filter (priced_at p) l ++ filter (priced_at p) r.
Proof.
  induction l as [| a l IHl]; intros r m Hl Hr Sl H.
  - destruct r; simpl in H; injection H as <-; reflexivity.
  - revert m H. induction r as [| b r IHr]; intros m H.
    + rewrite merge_nil_r in H. injection H as <-. cbn [filter].
      now rewrite app_nil_r.
    + inversion Hl as [| ? ? Ha Hl']; subst.
      inversion Hr as [| ? ? Hb Hr']; subst.
      rewrite merge_cons, (comparator_priced Ha Hb) in H.
      destruct (Qlt_bool (price b) (price a)) eqn:Hcmp.
      * destruct (merge (a :: l) r) as [rest | e] eqn:Hm; [| discriminate].
        injection H as <-. specialize (IHr Hr' rest eq_refl).
        change (filter (priced_at p) (b :: rest)) with
          (if priced_at p b then b :: filter (priced_at p) rest
           else filter (priced_at p) rest).
        change (filter (priced_at p) (b :: r)) with
          (if priced_at p b then b :: filter (priced_at p) r
           else filter (priced_at p) r).
        rewrite IHr.
        destruct (priced_at p b) eqn:Hpb; [| reflexivity].
        apply Qlt_bool_iff in Hcmp. unfold priced_at in Hpb.
        apply Qeq_bool_eq in Hpb.
        rewrite (@no_quote_priced_below p (a :: l)); [reflexivity |].
        inversion Sl as [| ? ? _ Fl]; subst.
        constructor; [now rewrite <- Hpb |].
        eapply Forall_impl; [| exact Fl].
        intros x Hx. unfold cheaper_eq in Hx. rewrite <- Hpb.
        eapply Qlt_le_trans; [exact Hcmp | exact Hx].
      * destruct (merge l (b :: r)) as [rest | e] eqn:Hm; [| discriminate].
        injection H as <-.
        inversion Sl as [| ? ? Sl' _]; subst.
        specialize (IHl (b :: r) rest Hl' Hr Sl' Hm).
        change (filter (priced_at p) (a :: rest)) with
          (if priced_at p a then a :: filter (priced_at p) rest
           else filter (priced_at p) rest).
        change (filter (priced_at p) (a :: l)) with
          (if priced_at p a then a :: filter (priced_at p) l
           else filter (priced_at p) l).
        rewrite IHl. destruct (priced_at p a); reflexivity.
Qed.

(** [$sort] is stable: the quotes of one price keep their order. *)
Lemma msort_stable p : forall n array m,
  (List.length array <= n)%nat -> Forall priced array ->
  msort array = Return m ->
  filter (priced_at p) m = filter (priced_at p) array.
Proof.
  induction n as [| n IHn]; intros array m Hlen Hp H.
  - destruct array; [| simpl in Hlen; inversion Hlen].
    simp msort in H. now injection H as <-.
  - destruct array as [| q1 [| q2 qs]].
    + simp msort in H. now injection H as <-.
    + simp msort in H. now injection H as <-.
    + simp msort in H. cbv zeta in H.
      set (array := q1 :: q2 :: qs) in *.
      set (middle := Nat.div2 (List.length array)) in *.
      assert (Hmid : (0 < middle < List.length array)%nat).
      { subst middle array. simpl List.length.
        split; [simpl; apply Nat.lt_0_succ |].
        apply Nat.lt_div2, Nat.lt_0_succ. }
      destruct (Forall_firstn_skipn middle Hp) as [Hpl Hpr].
      assert (Hll : (List.length (firstn middle array) <= n)%nat)
        by (rewrite length_firstn; lia).
      assert (Hlr : (List.length (skipn middle array) <= n)%nat)
        by (rewrite length_skipn; lia).
      destruct (msort_sorted Hll Hpl) as (l & Hl & Pl & Sl).
      rewrite Hl in H.
      destruct (msort (skipn middle array)) as [r |] eqn:Hr; [| discriminate].
      pose proof (@msort_permutation _ _ _ Hlr Hr) as Pr.
      rewrite (merge_stable p (Permutation_Forall Pl Hpl)
                              (Permutation_Forall Pr Hpr) Sl H).
      rewrite (IHn _ _ Hll Hpl Hl), (IHn _ _ Hlr Hpr Hr), <- filter_app.
      now rewrite firstn_skipn.
Qed.

(** X2.  Ties are broken by the order of the input: when the two-day quotes
    carry decimal rates and [rules] returns a rate id, it is the id of the
    first quote of the input, in input order, among the eligible quotes of
    the lowest price.  Prices are doubles: two rates that are one double
    tie. *)
Theorem rules_breaks_ties_by_input_order :
  forall (s : Shipment) (quotes : list Quote) (rate_id : string),
    rates s = Some quotes ->
    (forall q, In q quotes -> (delivery_days q <= 2)%Z -> priced q) ->
    rules s = Return (Some rate_id) ->
    exists chosen,
      rate_id = id chosen /\
      hd_error (filter (fun q => eligibleb (usps_zone s) q &&
                                 priced_at (price chosen) q) quotes) =
        Some chosen /\
      forall q, In q quotes -> eligible (usps_zone s) q ->
                (price chosen <= price q)%Q.
Proof.
  intros s quotes rate_id Hrates Hpriced H.
  rewrite rules_unfold, Hrates in H.
  destruct quotes as [| qa qb]; [discriminate |].
  set (quotes := qa :: qb) in *.
  rewrite evaluate_unfold in H.
  destruct (filter within_two_days quotes) as [| q0 qs] eqn:Hf; [discriminate |].
  assert (Hp : Forall priced (q0 :: qs)).
  { apply Forall_forall. intros x Hx. rewrite <- Hf in Hx.
    apply filter_In in Hx. destruct Hx as [Hx Hd].
    apply Hpriced; [exact Hx | now apply Z.leb_le]. }
  destruct (msort_sorted (Nat.le_refl _) Hp) as (sorted & Hsort & Perm & Sorted).
  rewrite Hsort in H.
  destruct (hd_error (candidates (usps_zone s) sorted)) as [h |] eqn:Hh;
    [| discriminate].
  injection H as <-. rewrite <- Hf in Perm.
  destruct (hd_error_cheapest (candidates_sorted (usps_zone s) Sorted) Hh)
    as [Hhin Hmin].
  exists h. split; [reflexivity |]. split.
  - pose proof (msort_stable (price h) (Nat.le_refl _) Hp Hsort) as Hstable.
    rewrite <- Hf in Hstable.
    set (c := fun q : Quote => if (2 <? usps_zone s)%Z then not_usps q else true).
    assert (Hc : candidates (usps_zone s) sorted = filter c sorted).
    { unfold candidates, c. destruct (2 <? usps_zone s)%Z; [reflexivity |].
      symmetry. now apply filter_all. }
    assert (Hfuse : filter (fun q => eligibleb (usps_zone s) q &&
                                     priced_at (price h) q) quotes =
                    filter (priced_at (price h)) (filter c sorted)).
    { rewrite filter_swap, Hstable, !filter_fuse. apply filter_ext.
      intros x. unfold eligibleb, c.
      destruct (within_two_days x), (priced_at (price h) x),
        (if (2 <? usps_zone s)%Z then not_usps x else true); reflexivity. }
    rewrite Hfuse, <- Hc.
    destruct (candidates (usps_zone s) sorted) as [| h' t]; [discriminate |].
    injection Hh as ->. cbn [filter]. unfold priced_at at 1.
    now rewrite Qeq_bool_refl.
  - intros x Hx Hel. apply Hmin.
    apply (eligible_candidate (usps_zone s) quotes x Perm). now split.
Qed.

Lemma rules_breaks_ties_by_input_order_witness :
  exists chosen,
    "rate_a"%string = id chosen /\
    hd_error (filter (fun q => eligibleb 1 q && priced_at (price chosen) q)
                     rounding_tie) =
      Some chosen /\
    forall q, In q rounding_tie -> eligible 1 q -> (price chosen <= price q)%Q.
Proof.
  apply (rules_breaks_ties_by_input_order
           (mkShipment "shp_3" (Some rounding_tie) 1)).
  - reflexivity.
  - intros q [<- | [<- | [<- | [<- | []]]]] _;
      (eexists; split; [reflexivity | vm_compute; reflexivity]).
  - vm_compute. reflexivity.
Defined.

(** X3.  Beyond zone 2, when some quote is delivered in two days or less
    but every such quote is carried by USPS (and carries a decimal rate),
    [rules] fails with the [NoSuitableRatesError] "chosenRate: undefined". *)
Theorem rules_rejects_usps_only_beyond_zone_2 :
  forall (s : Shipment) (quotes : list Quote),
    rates s = Some quotes ->
    (2 < usps_zone s)%Z ->
    (exists q, In q quotes /\ (delivery_days q <= 2)%Z) ->
    (forall q, In q quotes -> (delivery_days q <= 2)%Z ->
               carrier q = "USPS"%string /\ priced q) ->
    rules s = Throw (mkThrown NoSuitableRatesErrorC "chosenRate: undefined").
Proof.
  intros s quotes Hrates Hzone (q0 & Hin0 & Hd0) Husps.
  destruct (@evaluate_sorted quotes q0 Hin0 Hd0) as (sorted & Hev & Perm & _).
  { intros q Hq Hd. now apply Husps. }
  rewrite rules_unfold, Hrates, Hev.
  assert (Hnone : candidates (usps_zone s) sorted = []).
  { unfold candidates. rewrite (proj2 (Z.ltb_lt _ _) Hzone).
    apply filter_none. intros x Hx.
    apply (Permutation_in _ (Permutation_sym Perm)) in Hx.
    apply filter_In in Hx. destruct Hx as [Hx Hd]. apply Z.leb_le in Hd.
    unfold not_usps. rewrite (proj1 (Husps x Hx Hd)). reflexivity. }
  rewrite Hnone. destruct quotes; [destruct Hin0 | reflexivity].
Qed.

Lemma rules_rejects_usps_only_beyond_zone_2_witness :
  rules (mkShipment "shp_4"
           (Some [mkQuote "rate_1" "USPS" "Priority" "4.10" 2 "USD";
                  mkQuote "rate_2" "UPS" "Ground" "3.00" 5 "USD";
                  mkQuote "rate_3" "USPS" "Express" "9.00" 1 "USD"]) 5) =
  Throw (mkThrown NoSuitableRatesErrorC "chosenRate: undefined").
Proof.
  apply (rules_rejects_usps_only_beyond_zone_2
           (mkShipment "shp_4"
              (Some [mkQuote "rate_1" "USPS" "Priority" "4.10" 2 "USD";
                     mkQuote "rate_2" "UPS" "Ground" "3.00" 5 "USD";
                     mkQuote "rate_3" "USPS" "Express" "9.00" 1 "USD"]) 5)
           (quotes := [mkQuote "rate_1" "USPS" "Priority" "4.10" 2 "USD";
                       mkQuote "rate_2" "UPS" "Ground" "3.00" 5 "USD";
                       mkQuote "rate_3" "USPS" "Express" "9.00" 1 "USD"])).
  - reflexivity.
  - reflexivity.
  - exists (mkQuote "rate_1" "USPS" "Priority" "4.10" 2 "USD").
    split; [now left | discriminate].
  - intros q [<- | [<- | [<- | []]]] Hd.
    + split; [reflexivity |].
      eexists; split; [reflexivity | vm_compute; reflexivity].
    + exfalso. apply Hd. reflexivity.
    + split; [reflexivity |].
      eexists; split; [reflexivity | vm_compute; reflexivity].
Defined.

End RulesMore.

(* ===================================================================== *)
(** ** Further properties of the retry engine                             *)
(* ===================================================================== *)

Module RetryMore.

Import Retry RetrySpec MoreSpec JsFacts RetryFacts.

Section Engine.

Variables St R : Type.
Variable env : Environment.
Variable f : St -> Completion (option R) * St.
Variable types : list ErrorClass.
Variable opts : Options.

(** A run of [k] retryable failures followed by a success. *)
Lemma loop_first_success k : forall attempt w fuel r,
  (of_nat (attempt + k) <= to_number (maxRetries opts))%Q ->
  (k < fuel)%nat ->
  (forall j, (j < k)%nat -> exists e,
      attempt_outcome env f opts (state_after f j (user w)) (invocations w + j)
        = Throw e /\ shouldRetry types e = true) ->
  attempt_outcome env f opts (state_after f k (user w)) (invocations w + k)
    = Return r ->
  exists w',
    loop env f types opts fuel attempt w = Some (Return r, w') /\
    user w' = state_after f (S k) (user w) /\
    invocations w' = (invocations w + k + 1)%nat /\
    List.length (waits w') = (List.length (waits w) + k)%nat.
Proof.
  induction k as [| k IH]; intros attempt w fuel r Hmax Hfuel Hfail Hok;
    (destruct fuel as [| fuel]; [inversion Hfuel |]);
    rewrite loop_step;
    destruct (@attempt_once_outcome _ _ env f opts w) as (Hout & Huser);
    destruct (attempt_once_world env f opts w) as (Hinv & Hwaits & _);
    destruct (attempt_once env f opts w) as [result w1];
    cbn [fst snd] in Hout, Huser, Hinv, Hwaits.
  - replace (Qle_bool (of_nat attempt) (to_number (maxRetries opts))) with true
      by (symmetry; apply Qle_bool_iff; now rewrite Nat.add_0_r in Hmax).
    rewrite state_after_0, Nat.add_0_r in Hok.
    rewrite Hok in Hout. subst result.
    exists w1. split; [reflexivity |]. split; [exact Huser |].
    rewrite Hinv, Hwaits. split; lia.
  - assert (Hlt : (of_nat attempt < to_number (maxRetries opts))%Q).
    { eapply Qlt_le_trans; [| exact Hmax]. unfold of_nat.
      rewrite <- Zlt_Qlt. lia. }
    replace (Qle_bool (of_nat attempt) (to_number (maxRetries opts))) with true
      by (symmetry; apply Qle_bool_iff; now apply Qlt_le_weak).
    destruct (Hfail 0%nat (Nat.lt_0_succ k)) as (e & He & Hretry).
    rewrite state_after_0, Nat.add_0_r in He.
    rewrite He in Hout. subst result.
    replace (strict_equal_number (of_nat attempt) (maxRetries opts)) with false.
    2:{ symmetry. unfold strict_equal_number.
        destruct (maxRetries opts) as [x | x]; [| reflexivity].
        destruct (Qeq_bool (of_nat attempt) x) eqn:Heq; [| reflexivity].
        apply Qeq_bool_eq in Heq. simpl in Hlt. rewrite Heq in Hlt.
        now destruct (Qlt_irrefl x). }
    rewrite Hretry. cbn [negb].
    destruct (wait_before_retry_world env opts (S attempt) w1)
      as (Hu3 & Hi3 & Hw3 & _).
    destruct (IH (S attempt) (wait_before_retry env opts (S attempt) w1) fuel r)
      as (w' & Hloop & Hu' & Hi' & Hw').
    + replace (S attempt + k)%nat with (attempt + S k)%nat by lia. exact Hmax.
    + lia.
    + intros j Hj. rewrite Hu3, Huser, Hi3, Hinv, state_after_next.
      replace (S (invocations w) + j)%nat with (invocations w + S j)%nat by lia.
      apply Hfail. lia.
    + rewrite Hu3, Huser, Hi3, Hinv, state_after_next.
      replace (S (invocations w) + k)%nat with (invocations w + S k)%nat by lia.
      exact Hok.
    + exists w'. split; [exact Hloop |].
      rewrite Hu', Hi', Hw', Hu3, Huser, Hi3, Hinv, Hw3, Hwaits, length_app,
        state_after_next.
      split; [reflexivity |]. simpl. split; lia.
Qed.

(** With an integer [maxRetries = n], a run of the loop from [attempt <= n]
    ends in an attempt, after at most [n - attempt] retries. *)
Lemma loop_counts (n : nat) (q : Q) fuel :
  maxRetries opts = JNumber q -> (q == of_nat n)%Q ->
  forall attempt w result w',
    (attempt <= n)%nat ->
    loop env f types opts fuel attempt w = Some (result, w') ->
    exists k,
      (attempt + k <= n)%nat /\
      invocations w' = (invocations w + k + 1)%nat /\
      List.length (waits w') = (List.length (waits w) + k)%nat.
Proof.
  intros Hmax Hq.
  induction fuel as [| fuel IH]; intros attempt w result w' Ha Hloop.
  - simpl in Hloop.
    rewrite (@condition_holds opts n q Hmax Hq attempt Ha) in Hloop.
    discriminate.
  - rewrite loop_step, (@condition_holds opts n q Hmax Hq attempt Ha),
      (@last_attempt_test opts n q Hmax Hq) in Hloop.
    destruct (attempt_once_world env f opts w) as (Hinv & Hwaits & _).
    destruct (attempt_once env f opts w) as [[r | e] w1];
      cbn [snd] in Hinv, Hwaits.
    + injection Hloop as _ <-. exists 0%nat. rewrite Hinv, Hwaits. lia.
    + destruct (Nat.eqb_spec attempt n) as [-> | Hne].
      * injection Hloop as _ <-. exists 0%nat. rewrite Hinv, Hwaits. lia.
      * destruct (negb (shouldRetry types e)).
        -- injection Hloop as _ <-. exists 0%nat. rewrite Hinv, Hwaits. lia.
        -- apply IH in Hloop; [| lia].
           destruct Hloop as (k & Hk & Hi & Hw).
           destruct (wait_before_retry_world env opts (S attempt) w1)
             as (_ & Hi3 & Hw3 & _).
           exists (S k). rewrite Hi, Hw, Hi3, Hw3, Hinv, Hwaits, length_app.
           simpl. lia.
Qed.



End Engine.

Lemma enough_iterations options k :
  (of_nat k <= to_number (maxRetries options))%Q ->
  (k < iterations options)%nat.
Proof.
  intros H. apply Qfloor_resp_le in H. unfold of_nat in H.
  rewrite Qfloor_Z in H. unfold iterations. lia.
Qed.

(** X4.  Under a valid policy, when the first [k] attempts fail with errors
    that the retryable set matches, [k] is at most [maxRetries], and the
    next attempt succeeds, [retry] returns the result of that attempt
    unchanged after exactly [k + 1] invocations and [k] waits. *)
Theorem retry_returns_first_success :
  forall (St R : Type) (env : Environment)
         (f : St -> Completion (option R) * St) (types : list ErrorClass)
         (options : Options) (w : World St) (k : nat) (r : option R),
    valid_options options ->
    (of_nat k <= to_number (maxRetries options))%Q ->
    (forall j, (j < k)%nat -> exists e,
        attempt_outcome env f options (state_after f j (user w))
                        (invocations w + j) = Throw e /\
        shouldRetry types e = true) ->
    attempt_outcome env f options (state_after f k (user w))
                    (invocations w + k) = Return r ->
    exists w',
      retry env (Callable f) (ErrorTypesArray types) options w =
        Some (Return r, w') /\
      user w' = state_after f (S k) (user w) /\
      invocations w' = (invocations w + k + 1)%nat /\
      List.length (waits w') = (List.length (waits w) + k)%nat.
Proof.
  intros St R env f types options w k r Hvalid Hk Hfail Hok.
  rewrite (retry_valid env f types w Hvalid).
  apply loop_first_success; try assumption.
  now apply enough_iterations.
Qed.

Lemma retry_returns_first_success_witness :
  exists w',
    retry quarter (Callable failingFunction) (ErrorTypesArray [NetworkError])
          capped_backoff fresh = Some (Return (Some "Success!"%string), w') /\
    user w' = state_after failingFunction 3 (user fresh) /\
    invocations w' = (invocations fresh + 2 + 1)%nat /\
    List.length (waits w') = (List.length (waits fresh) + 2)%nat.
Proof.
  apply (@retry_returns_first_success nat string quarter failingFunction
           [NetworkError] capped_backoff fresh 2 (Some "Success!"%string)).
  - split; [split; discriminate |]. split; discriminate.
  - discriminate.
  - intros j Hj. destruct j as [| [| j]].
    + eexists. split; reflexivity.
    + eexists. split; reflexivity.
    + exfalso. apply (Nat.lt_irrefl 2).
      eapply Nat.le_lt_trans; [| exact Hj]. apply le_n_S, le_n_S, Nat.le_0_l.
  - reflexivity.
Defined.

(** X5.  Under a valid policy with an integer [maxRetries = n], every call
    of [retry] that reaches the loop invokes the operation at least once and
    at most [n + 1] times, and waits exactly once between two consecutive
    invocations: never before the first and never after the last. *)
Theorem retry_attempts_and_waits :
  forall (St R : Type) (env : Environment)
         (f : St -> Completion (option R) * St) (types : list ErrorClass)
         (options : Options) (n : nat) (q : Q) (w : World St)
         (result : Completion (option R)) (w' : World St),
    maxRetries options = JNumber q -> (q == of_nat n)%Q ->
    (0 <= to_number (jitter options) <= 1)%Q ->
    (0 <= to_number (retryInterval options))%Q ->
    retry env (Callable f) (ErrorTypesArray types) options w = Some (result, w') ->
    exists k,
      (k <= n)%nat /\
      invocations w' = (invocations w + k + 1)%nat /\
      List.length (waits w') = (List.length (waits w) + k)%nat.
Proof.
  intros St R env f types options n q w result w' Hmax Hq Hjitter Hinterval Hrun.
  assert (Hvalid : valid_options options).
  { split; [exact Hjitter |]. split; [| exact Hinterval].
    rewrite Hmax. simpl. rewrite Hq. apply (of_nat_le 0 n), Nat.le_0_l. }
  rewrite (retry_valid env f types w Hvalid) in Hrun.
  apply (@loop_counts St R env f types options n q _ Hmax Hq 0%nat) in Hrun;
    [exact Hrun | apply Nat.le_0_l].
Qed.

Lemma retry_attempts_and_waits_witness :
  exists k,
    (k <= 3)%nat /\
    invocations (mkWorld 3%nat 3 [10; 20] 0) = (invocations fresh + k + 1)%nat /\
    List.length (waits (mkWorld 3%nat 3 [10; 20] 0)) =
      (List.length (waits fresh) + k)%nat.
Proof.
  apply (@retry_attempts_and_waits nat string quarter failingFunction
           [NetworkError] capped_backoff 3 3 fresh
           (Return (Some "Success!"%string))).
  - reflexivity.
  - reflexivity.
  - split; discriminate.
  - discriminate.
  - vm_compute. reflexivity.
Defined.



(** X7.  With backoff off and jitter 0 (and a non-negative cap), every
    delay waited is [min(retryInterval, maxDelay)]: the attempts are evenly
    spaced. *)
Theorem linear_delay_sequence :
  forall (St R : Type) (env : Environment) (asyncFn : FunctionArg St R)
         (ErrorTypes : ErrorTypesArg) (options : Options) (w : World St)
         (result : Completion (option R)) (w' : World St) (d : Q),
    backoff options = false ->
    (to_number (jitter options) == 0)%Q ->
    (0 <= to_number (maxDelay options))%Q ->
    retry env asyncFn ErrorTypes options w = Some (result, w') ->
    waits w = [] ->
    In d (waits w') ->
    (d == Qmin (to_number (retryInterval options))
               (to_number (maxDelay options)))%Q.
Proof.
  intros St R env asyncFn ErrorTypes options w result w' d
         Hlinear Hjitter Hcap Hrun Hfresh Hd.
  apply In_nth_error in Hd. destruct Hd as (idx & Hnth).
  destruct (@retry_nth_wait St R env asyncFn ErrorTypes options w result w'
              (S idx) d Hrun Hfresh)
    as ((_ & _ & Hinterval) & ->).
  - apply le_n_S, Nat.le_0_l.
  - now rewrite Nat.sub_1_r.
  - unfold waited, capped_delay. rewrite Hlinear.
    replace (Qlt_bool 0 (to_number (jitter options))) with false
      by (symmetry; apply Qlt_bool_false_iff; rewrite Hjitter; apply Qle_refl).
    apply Q.max_r. now apply Q.min_glb.
Qed.

Lemma linear_delay_sequence_witness :
  (10 == Qmin (to_number (retryInterval linear_retries))
              (to_number (maxDelay linear_retries)))%Q.
Proof.
  eapply (@linear_delay_sequence nat string quarter
            (Callable alwaysFailingFunction) (ErrorTypesArray [NetworkError])
            linear_retries fresh).
  - reflexivity.
  - reflexivity.
  - discriminate.
  - vm_compute. reflexivity.
  - reflexivity.
  - right. right. left. reflexivity.
Defined.

(** X8.  When the timeout is armed and its timer settles before the
    operation does, the attempt fails with the error "Operation timed out",
    an instance of [Error], whatever the operation itself yields; under a
    valid policy whose retryable set is non-empty and lists neither [Error]
    nor [Object], [retry] rejects with that error after this single
    invocation, without waiting. *)
Theorem timed_out_attempt_is_not_retried :
  forall (St R : Type) (env : Environment)
         (f : St -> Completion (option R) * St) (types : list ErrorClass)
         (options : Options) (w : World St),
    valid_options options ->
    (0 < to_number (timeout options))%Q ->
    timer_first env (invocations w) = true ->
    types <> [] -> ~ In ErrorC types -> ~ In ObjectC types ->
    exists w',
      retry env (Callable f) (ErrorTypesArray types) options w =
        Some (Throw timed_out, w') /\
      user w' = snd (f (user w)) /\
      invocations w' = S (invocations w) /\
      waits w' = waits w.
Proof.
  intros St R env f types options w Hvalid Htimeout Htimer Hne HnoE HnoO.
  rewrite (retry_valid env f types w Hvalid). unfold iterations.
  rewrite loop_step.
  destruct Hvalid as (_ & Hm & _).
  replace (Qle_bool (of_nat 0) (to_number (maxRetries options))) with true
    by (symmetry; apply Qle_bool_iff; exact Hm).
  assert (Hattempt : attempt_once env f options w =
                     (Throw timed_out,
                      mkWorld (snd (f (user w))) (S (invocations w))
                              (waits w) (draws w))).
  { unfold attempt_once. destruct (f (user w)) as [result st].
    rewrite (proj2 (Qlt_bool_iff _ _) Htimeout), Htimer. reflexivity. }
  rewrite Hattempt.
  assert (Hno : shouldRetry types timed_out = false).
  { unfold shouldRetry. apply orb_false_iff. split.
    - destruct types; [now destruct Hne | reflexivity].
    - destruct (existsb _ types) eqn:Hex; [| reflexivity].
      apply existsb_exists in Hex. destruct Hex as (T & HT & Hmatch).
      exfalso.
      destruct T; try (now apply HnoE); try (now apply HnoO);
        cbv in Hmatch; discriminate. }
  eexists. split.
  - destruct (strict_equal_number _ _); [reflexivity |].
    rewrite Hno. reflexivity.
  - auto.
Qed.

Lemma timed_out_attempt_is_not_retried_witness :
  exists w',
    retry impatient (Callable successFunction) (ErrorTypesArray [NetworkError])
          with_timeout fresh = Some (Throw timed_out, w') /\
    user w' = snd (successFunction (user fresh)) /\
    invocations w' = S (invocations fresh) /\
    waits w' = waits fresh.
Proof.
  apply (@timed_out_attempt_is_not_retried nat string impatient successFunction
           [NetworkError] with_timeout fresh).
  - split; [split; discriminate |]. split; discriminate.
  - reflexivity.
  - reflexivity.
  - discriminate.
  - intros [H | []]. discriminate.
  - intros [H | []]. discriminate.
Defined.

End RetryMore.

(* ===================================================================== *)
(** ** Further properties of the rate-obtaining step                      *)
(* ===================================================================== *)

Module HandlerMore.

Import Rules Retry RetrySpec RetryFacts Handler HandlerSpec MoreSpec HandlerFacts.

(** What a run of the loop yields comes from one of its attempts, unless
    the loop ran off its end. *)
Lemma loop_outcome_from_attempt {St R : Type} env
    (f : St -> Completion (option R) * St) types opts fuel :
  forall attempt w result w',
    loop env f types opts fuel attempt w = Some (result, w') ->
    (exists w_last, attempt_once env f opts w_last = (result, w')) \/
    result = Return None.
Proof.
  induction fuel as [| fuel IH]; intros attempt w result w' Hloop.
  - simpl in Hloop. destruct (Qle_bool _ _); [discriminate |].
    injection Hloop as <- _. now right.
  - rewrite loop_step in Hloop.
    destruct (Qle_bool _ _); [| injection Hloop as <- _; now right].
    destruct (attempt_once env f opts w) as [[r | e] w1] eqn:Hw1.
    + injection Hloop as <- <-. left. now exists w.
    + destruct (strict_equal_number _ _);
        [injection Hloop as <- <-; left; now exists w |].
      destruct (negb _); [injection Hloop as <- <-; left; now exists w |].
      now apply IH in Hloop.
Qed.

(** What [search] yields, other than [undefined] and the errors of the
    validation, is what the closure yielded on its last invocation. *)
Lemma search_outcome_from_closure bun env easypost result w :
  search bun env easypost = Some (result, w) ->
  (exists c, quote_and_select easypost c = (result, user w)) \/
  result = Return None \/
  (exists e, result = Throw e /\ constructor e = RangeErrorC).
Proof.
  unfold search, retry. intros H.
  destruct (_ || _); [injection H as <- _; right; right; eauto |].
  destruct (Qlt_bool _ _); [injection H as <- _; right; right; eauto |].
  destruct (Qlt_bool _ _); [injection H as <- _; right; right; eauto |].
  apply loop_outcome_from_attempt in H.
  destruct H as [(w_last & Hattempt) | Hnone]; [left | now right; left].
  rewrite attempt_of_the_step in Hattempt.
  injection Hattempt as <- <-. exists (user w_last). simpl.
  now destruct (quote_and_select easypost (user w_last)).
Qed.

(** When the closure yields what [rules] yielded, the captured response is
    the one just received. *)
Lemma closure_returns easypost c rate_id c' :
  quote_and_select easypost c = (Return (Some rate_id), c') ->
  exists response,
    easypost (createShipment_calls c) = Return response /\
    c' = mkCaptured (S (createShipment_calls c)) (Some response) /\
    rules response = Return (Some rate_id).
Proof.
  unfold quote_and_select. intros H.
  destruct (easypost (createShipment_calls c)) as [response | e];
    [| discriminate].
  destruct (rates response); [| discriminate].
  injection H as Hrules <-. now exists response.
Qed.

Lemma closure_throws_no_suitable_rates easypost c e c' :
  (forall k e', easypost k = Throw e' ->
                instanceof e' NoSuitableRatesErrorC = false) ->
  quote_and_select easypost c = (Throw e, c') ->
  instanceof e NoSuitableRatesErrorC = true ->
  exists response quotes,
    easypost (createShipment_calls c) = Return response /\
    c' = mkCaptured (S (createShipment_calls c)) (Some response) /\
    rates response = Some quotes /\
    rules response = Throw e.
Proof.
  unfold quote_and_select. intros Hapi H He.
  destruct (easypost (createShipment_calls c)) as [response | e'] eqn:Hcall.
  - destruct (rates response) as [quotes |] eqn:Hrates.
    + injection H as Hrules <-. now exists response, quotes.
    + injection H as <- _. discriminate.
  - injection H as <- _. rewrite (Hapi _ _ Hcall) in He. discriminate.
Qed.

(** X9.  When the step reaches the purchase, the rate id it holds was
    selected by [rules] from the response of the latest call of
    [easypost.createShipment], which is the response held in
    [shipmentResponse]; [easypost.buyShipment] is called with the id of that
    shipment and with [chosenRate.id], the property [id] of a string, that
    is [undefined]. *)
Theorem purchase_uses_latest_response :
  forall (bun : BunEnv) (env : Environment)
         (easypost : nat -> Completion Shipment) (order : Order)
         (sendMail : EmailMessage -> Completion unit)
         (r : StepResult) (call : BuyCall),
    obtain_rate bun env easypost order sendMail = Some r ->
    outcome r = Return call ->
    exists response rate_id k,
      createShipment_calls (user (final r)) = S k /\
      easypost k = Return response /\
      shipmentResponse (user (final r)) = Some response /\
      rules response = Return (Some rate_id) /\
      buy_shipment_id call = shipment_id response /\
      buy_rate_id call = None.
Proof.
  intros bun env easypost order sendMail r call Hr Hout. unfold obtain_rate in Hr.
  destruct (search bun env easypost) as [[[chosenRate | e] w] |] eqn:Hs;
    [| | discriminate].
  - injection Hr as <-. cbn [outcome final] in *. unfold buy in Hout.
    destruct (shipmentResponse (user w)) as [held |] eqn:Hheld; [| discriminate].
    destruct chosenRate as [rate_id |]; [| discriminate].
    injection Hout as <-.
    destruct (search_outcome_from_closure _ _ _ Hs)
      as [(c & Hc) | [Hnone | (e & He & _)]]; [| discriminate | discriminate].
    destruct (closure_returns _ _ Hc) as (response & Hcall & Huser & Hrules).
    rewrite Huser in Hheld. cbn in Hheld. injection Hheld as <-.
    exists response, rate_id, (createShipment_calls c).
    rewrite Huser. cbn. repeat split; assumption.
  - destruct (instanceof e NoSuitableRatesErrorC).
    + injection Hr as <-. cbn [outcome] in Hout. unfold escalate in Hout.
      destruct (notify bun _); [destruct (sendMail _) |]; discriminate.
    + injection Hr as <-. cbn [outcome] in Hout. unfold buy in Hout.
      destruct (shipmentResponse (user w)); discriminate.
Qed.

Lemma purchase_uses_latest_response_witness :
  exists response rate_id k,
    createShipment_calls
      (user (mkWorld (mkCaptured 2 (Some two_day_response)) 2 [1000] 1)) = S k /\
    second_time_lucky k = Return response /\
    shipmentResponse
      (user (mkWorld (mkCaptured 2 (Some two_day_response)) 2 [1000] 1)) =
      Some response /\
    rules response = Return (Some rate_id) /\
    buy_shipment_id (mkBuyCall "shp_2" None) = shipment_id response /\
    buy_rate_id (mkBuyCall "shp_2" None) = None.
Proof.
  apply (@purchase_uses_latest_response bare_env steady second_time_lucky
           an_order delivers
           (mkStepResult (Return (mkBuyCall "shp_2" None)) []
              (mkWorld (mkCaptured 2 (Some two_day_response)) 2 [1000] 1))
           (mkBuyCall "shp_2" None)).
  - vm_compute. reflexivity.
  - reflexivity.
Defined.

(** X10.  When the search ends on a [NoSuitableRatesError] (and
    [easypost.createShipment] itself throws no such error), the response
    held in [shipmentResponse] is the one of the latest call of
    [easypost.createShipment], the error is the one [rules] threw on that
    very response, and the notification lists the rates of that response and
    ends with the message of that error. *)
Theorem notification_reports_the_rejected_response :
  forall (bun : BunEnv) (env : Environment)
         (easypost : nat -> Completion Shipment) (order : Order)
         (e : Thrown) (w : World Captured),
    search bun env easypost = Some (Throw e, w) ->
    instanceof e NoSuitableRatesErrorC = true ->
    (forall k e', easypost k = Throw e' ->
                  instanceof e' NoSuitableRatesErrorC = false) ->
    exists response quotes k,
      createShipment_calls (user w) = S k /\
      easypost k = Return response /\
      shipmentResponse (user w) = Some response /\
      rates response = Some quotes /\
      rules response = Throw e /\
      text (emailMessage bun order (shipmentResponse (user w)) e) =
        ("Order: " ++ order_name order ++ nl ++
         "Available rates that were rejected:" ++ nl ++
         String.concat nl (map rate_line quotes) ++ nl ++ nl ++
         "View order in Shopify Admin: " ++
         (SHOPIFY_ADMIN_BASE_URL bun ++ "/orders/" ++ order_number order) ++
         nl ++ nl ++ "Error: " ++ message e)%string.
Proof.
  intros bun env easypost order e w Hs He Hapi.
  destruct (search_outcome_from_closure _ _ _ Hs)
    as [(c & Hc) | [Hnone | (e' & He' & Hrange)]].
  - destruct (@closure_throws_no_suitable_rates easypost c e (user w) Hapi Hc He)
      as (response & quotes & Hcall & Huser & Hrates & Hrules).
    exists response, quotes, (createShipment_calls c).
    rewrite Huser. cbn [createShipment_calls shipmentResponse].
    repeat split; try assumption.
    unfold emailMessage. cbn [text]. now rewrite Hrates.
  - discriminate.
  - injection He' as ->. unfold instanceof in He. rewrite Hrange in He.
    discriminate.
Qed.

Lemma notification_reports_the_rejected_response_witness :
  exists response quotes k,
    createShipment_calls
      (user (mkWorld (mkCaptured 4 (Some five_day_response)) 4
                     [1000; 1000; 1000] 3)) = S k /\
    only_slow_rates k = Return response /\
    shipmentResponse
      (user (mkWorld (mkCaptured 4 (Some five_day_response)) 4
                     [1000; 1000; 1000] 3)) = Some response /\
    rates response = Some quotes /\
    rules response = Throw no_two_day_rates /\
    text (emailMessage bare_env an_order
            (shipmentResponse
               (user (mkWorld (mkCaptured 4 (Some five_day_response)) 4
                              [1000; 1000; 1000] 3)))
            no_two_day_rates) =
      ("Order: " ++ order_name an_order ++ nl ++
       "Available rates that were rejected:" ++ nl ++
       String.concat nl (map rate_line quotes) ++ nl ++ nl ++
       "View order in Shopify Admin: " ++
       (SHOPIFY_ADMIN_BASE_URL bare_env ++ "/orders/" ++ order_number an_order) ++
       nl ++ nl ++ "Error: " ++ message no_two_day_rates)%string.
Proof.
  apply (@notification_reports_the_rejected_response bare_env steady
           only_slow_rates an_order no_two_day_rates
           (mkWorld (mkCaptured 4 (Some five_day_response)) 4
                    [1000; 1000; 1000] 3)).
  - vm_compute. reflexivity.
  - reflexivity.
  - intros k e' H. discriminate H.
Defined.

(** X15.  When [SHIPPING_RATE_SEARCH_RETRIES] is set, [maxRetries] reaches
    [retry] as a string, for which [attempt === maxRetries] never holds:
    [retry] then never rejects with a [NoSuitableRatesError], so the step
    records no notification, and the only errors it raises are the
    [TypeError]s of the purchase. *)
Theorem set_retry_budget_disables_escalation :
  forall (bun : BunEnv) (env : Environment)
         (easypost : nat -> Completion Shipment) (order : Order)
         (sendMail : EmailMessage -> Completion unit)
         (q : Q) (r : StepResult),
    SHIPPING_RATE_SEARCH_RETRIES bun = Some q ->
    obtain_rate bun env easypost order sendMail = Some r ->
    (forall e w, search bun env easypost = Some (Throw e, w) ->
                 instanceof e NoSuitableRatesErrorC = false) /\
    effects r = [] /\
    (forall e, outcome r = Throw e -> constructor e = TypeErrorC).
Proof.
  intros bun env easypost order sendMail q r Hset Hr.
  assert (Hsearch : forall e w,
             search bun env easypost = Some (Throw e, w) ->
             instanceof e NoSuitableRatesErrorC = false).
  { intros e w Hs.
    destruct (instanceof e NoSuitableRatesErrorC) eqn:He; [| reflexivity].
    pose proof (search_throws_from_loop _ _ _ Hs He) as Hloop.
    apply (@loop_string_maxRetries _ _ env (quote_and_select easypost)
             [NoSuitableRatesErrorC] (retry_options bun) q) in Hloop.
    - rewrite shouldRetry_NoSuitableRates in Hloop. congruence.
    - unfold maxRetries, retry_options. cbn. now rewrite Hset. }
  assert (Hbuy : forall held chosen e,
             buy held chosen = Throw e -> constructor e = TypeErrorC).
  { intros held chosen e. unfold buy.
    destruct held; [destruct chosen |]; try discriminate;
      intros H; injection H as <-; reflexivity. }
  split; [exact Hsearch |].
  unfold obtain_rate in Hr.
  destruct (search bun env easypost) as [[[chosenRate | e'] w] |] eqn:Hs;
    [| | discriminate].
  - injection Hr as <-. cbn. split; [reflexivity |]. apply Hbuy.
  - rewrite (Hsearch e' w eq_refl) in Hr. injection Hr as <-. cbn.
    split; [reflexivity |]. apply Hbuy.
Qed.

Lemma set_retry_budget_disables_escalation_witness :
  exists r,
    obtain_rate one_retry_env steady only_slow_rates an_order delivers = Some r /\
    (forall e w, search one_retry_env steady only_slow_rates = Some (Throw e, w) ->
                 instanceof e NoSuitableRatesErrorC = false) /\
    effects r = [] /\
    (forall e, outcome r = Throw e -> constructor e = TypeErrorC).
Proof.
  destruct (obtain_rate_terminates one_retry_env steady only_slow_rates an_order
              delivers)
    as (r & Hr).
  exists r. split; [exact Hr |].
  apply (@set_retry_budget_disables_escalation one_retry_env steady
           only_slow_rates an_order delivers 1 r); [reflexivity | exact Hr].
Defined.

End HandlerMore.

(* ===================================================================== *)
(** ** Properties of the parcel weight                                    *)
(* ===================================================================== *)

Module ParcelFacts.

Import Parcel MoreSpec.

Lemma ounces_whole item :
  whole item -> exists z, (0 <= z)%Z /\ (ounces item == inject_Z z)%Q.
Proof.
  intros (z & Hz & Hv). unfold ounces.
  destruct (String.eqb (weight_unit item) "POUNDS").
  - exists (z * 16)%Z. split; [lia |]. now rewrite Hv, inject_Z_mult.
  - now exists z.
Qed.

Lemma total_ounces_nonneg items :
  Forall whole items -> (0 <= total_ounces items)%Q.
Proof.
  induction 1 as [| item rest Hitem _ IH]; [apply Qle_refl |]. simpl.
  destruct (ounces_whole Hitem) as (z & Hz & ->).
  assert (H0 : (0 <= inject_Z z)%Q)
    by (change 0%Q with (inject_Z 0); now rewrite <- Zle_Qle).
  lra.
Qed.

(** On whole weights whose sum stays below 2^53 no addition rounds. *)
Lemma reduce_supported items : forall acc a,
  Forall supported items -> Forall whole items ->
  (0 <= a)%Z -> (acc == inject_Z a)%Q ->
  (acc + total_ounces items < inject_Z (2 ^ 53))%Q ->
  exists w, reduce acc items = Return w /\ (w == acc + total_ounces items)%Q.
Proof.
  induction items as [| item rest IH]; intros acc a Hs Hw Ha Hacc Hbound.
  - exists acc. split; [reflexivity |]. simpl. ring.
  - inversion Hs as [| ? ? Hitem Hrest]; subst.
    inversion Hw as [| ? ? Hwhole Hwholes]; subst.
    pose proof (total_ounces_nonneg Hwholes) as Hnonneg.
    destruct (ounces_whole Hwhole) as (z & Hz & Hounces).
    cbn [total_ounces] in Hbound. rewrite Hacc, Hounces in Hbound.
    assert (Hsum : (a + z < 2 ^ 53)%Z).
    { rewrite Zlt_Qlt, inject_Z_plus. lra. }
    assert (Hstep : exists acc',
               reduce acc (item :: rest) = reduce acc' rest /\
               (acc' == inject_Z (a + z))%Q /\ (acc' == acc + ounces item)%Q).
    { assert (Hexact : (Double.fl (acc + inject_Z z) == inject_Z (a + z))%Q).
      { apply DoubleFacts.fl_exact.
        - apply DoubleFacts.representable_integer. lia.
        - now rewrite Hacc, inject_Z_plus. }
      unfold ounces in Hounces. cbn [reduce].
      destruct Hitem as [Hu | Hu]; rewrite Hu in *; cbn in Hounces |- *.
      - eexists. split; [reflexivity |].
        assert (Hpounds : (Double.mul (weight_value item) 16 == inject_Z z)%Q).
        { apply DoubleFacts.fl_exact; [| exact Hounces].
          apply DoubleFacts.representable_integer. lia. }
        unfold Double.add. rewrite (DoubleFacts.fl_comp
          (x := acc + Double.mul (weight_value item) 16) (y := acc + inject_Z z))
          by (now rewrite Hpounds).
        split; [exact Hexact |].
        unfold ounces. rewrite Hu. cbn. rewrite Hexact, Hounces, Hacc, inject_Z_plus.
        reflexivity.
      - eexists. split; [reflexivity |].
        unfold Double.add. rewrite (DoubleFacts.fl_comp
          (x := acc + weight_value item) (y := acc + inject_Z z))
          by (now rewrite Hounces).
        split; [exact Hexact |].
        unfold ounces. rewrite Hu. cbn. rewrite Hexact, Hounces, Hacc, inject_Z_plus.
        reflexivity. }
    destruct Hstep as (acc' & -> & Hacc' & Hnext).
    destruct (IH acc' (a + z)%Z Hrest Hwholes) as (w & -> & Hw'); [lia | exact Hacc' | |].
    + rewrite Hacc', inject_Z_plus. lra.
    + exists w. split; [reflexivity |]. rewrite Hw', Hnext. cbn [total_ounces]. ring.
Qed.

Lemma reduce_unsupported good : forall acc bad rest,
  Forall supported good -> ~ supported bad ->
  reduce acc (good ++ bad :: rest) = Throw (unsupported_unit (weight_unit bad)).
Proof.
  induction good as [| item good IH]; intros acc bad rest Hgood Hbad.
  - simpl. unfold supported in Hbad.
    destruct (String.eqb_spec (weight_unit bad) "POUNDS") as [Hp | _];
      [destruct Hbad; now left |].
    destruct (String.eqb_spec (weight_unit bad) "OUNCES") as [Ho | _];
      [destruct Hbad; now right | reflexivity].
  - inversion Hgood as [| ? ? Hitem Hrest]; subst. simpl.
    destruct Hitem as [Hu | Hu]; rewrite Hu; simpl; now apply IH.
Qed.

(** X11.  When every line item weighs a whole number of pounds or of
    ounces and the items weigh less than 2^53 ounces together, the parcel
    weight is the sum of the items' weights in ounces, a pound counting
    sixteen ounces; no items weigh 0. *)
Theorem weight_is_the_sum_in_ounces :
  forall items : list LineItem,
    Forall supported items ->
    Forall whole items ->
    (total_ounces items < inject_Z (2 ^ 53))%Q ->
    exists w, weight items = Return w /\ (w == total_ounces items)%Q.
Proof.
  intros items Hs Hw Hbound.
  destruct (@reduce_supported items 0 0%Z Hs Hw (Z.le_refl 0) (Qeq_refl 0))
    as (w & Hweight & Hsum).
  - now rewrite Qplus_0_l.
  - exists w. split; [exact Hweight |]. rewrite Hsum. ring.
Qed.

Lemma weight_is_the_sum_in_ounces_witness :
  exists w,
    weight two_pounds_eight_ounces = Return w /\
    (w == total_ounces two_pounds_eight_ounces)%Q.
Proof.
  apply (@weight_is_the_sum_in_ounces two_pounds_eight_ounces).
  - constructor; [left; reflexivity |].
    constructor; [right; reflexivity | constructor].
  - constructor; [exists 2%Z; split; [discriminate | reflexivity] |].
    constructor; [exists 8%Z; split; [discriminate | reflexivity] | constructor].
  - reflexivity.
Defined.

(** X12.  The first line item whose weight unit is neither "POUNDS" nor
    "OUNCES" (grams, kilograms) makes the computation of the parcel weight
    throw an [Error] that names that unit, whatever comes after it. *)
Theorem weight_rejects_other_units :
  forall (good : list LineItem) (bad : LineItem) (rest : list LineItem),
    Forall supported good -> ~ supported bad ->
    weight (good ++ bad :: rest) =
    Throw (mkThrown ErrorC
             ("Item has weight specified in units " ++ weight_unit bad ++
              ". Please update the product's weight in the Admin in either pounds or ounces.")).
Proof.
  intros good bad rest Hgood Hbad. unfold weight.
  now rewrite (reduce_unsupported 0 rest Hgood Hbad).
Qed.

Lemma weight_rejects_other_units_witness :
  weight ([mkLineItem "POUNDS" 2] ++
          mkLineItem "GRAMS" 500 :: [mkLineItem "OUNCES" 8]) =
  Throw (mkThrown ErrorC
           ("Item has weight specified in units " ++
            weight_unit (mkLineItem "GRAMS" 500) ++
            ". Please update the product's weight in the Admin in either pounds or ounces.")).
Proof.
  apply (@weight_rejects_other_units [mkLineItem "POUNDS" 2]
           (mkLineItem "GRAMS" 500) [mkLineItem "OUNCES" 8]).
  - constructor; [left; reflexivity | constructor].
  - intros [H | H]; discriminate H.
Defined.

End ParcelFacts.

(* ===================================================================== *)
(** ** Properties of the webhook route                                    *)
(* ===================================================================== *)

Module WebhookFacts.

Import Webhook MoreSpec.

Section Route.

Variable Body : Type.
Variable JSON_parse : string -> Completion Body.
Variable digest : option string -> string -> string.

Lemma timingSafeEqual_true a b : timingSafeEqual a b = Return true <-> a = b.
Proof.
  unfold timingSafeEqual. split.
  - destruct (String.length a =? String.length b)%nat; [| discriminate].
    intros H. injection H as H. now apply String.eqb_eq.
  - intros ->. rewrite Nat.eqb_refl, String.eqb_refl. reflexivity.
Qed.

Lemma timingSafeEqual_false a b :
  timingSafeEqual a b = Return false <->
  String.length a = String.length b /\ a <> b.
Proof.
  unfold timingSafeEqual. split.
  - destruct (Nat.eqb_spec (String.length a) (String.length b)) as [Hl | Hl];
      [| discriminate].
    intros H. injection H as H. split; [exact Hl |]. now apply String.eqb_neq.
  - intros [Hl Hne]. rewrite Hl, Nat.eqb_refl.
    now rewrite (proj2 (String.eqb_neq a b) Hne).
Qed.

Lemma timingSafeEqual_throws a b :
  (exists e, timingSafeEqual a b = Throw e) <->
  String.length a <> String.length b.
Proof.
  unfold timingSafeEqual.
  destruct (Nat.eqb_spec (String.length a) (String.length b)) as [Hl | Hl].
  - split; [intros (e & He); discriminate | intros H; now destruct H].
  - split; [auto | eauto].
Qed.

(** X13.  [validateShopifyWebhookHmac] answers true exactly when the header
    is the digest of the body under the secret, answers false exactly when
    the header differs from the digest but has its byte length, and throws,
    instead of answering false, exactly when the byte lengths differ. *)
Theorem validateShopifyWebhookHmac_outcomes :
  forall (hmacHeader bodyBuffer : string) (webhookSecret : option string),
    (validateShopifyWebhookHmac digest hmacHeader bodyBuffer webhookSecret =
       Return true <->
     hmacHeader = digest webhookSecret bodyBuffer) /\
    (validateShopifyWebhookHmac digest hmacHeader bodyBuffer webhookSecret =
       Return false <->
     String.length hmacHeader = String.length (digest webhookSecret bodyBuffer) /\
     hmacHeader <> digest webhookSecret bodyBuffer) /\
    ((exists e,
         validateShopifyWebhookHmac digest hmacHeader bodyBuffer webhookSecret =
         Throw e) <->
     String.length hmacHeader <> String.length (digest webhookSecret bodyBuffer)).
Proof using digest.
  intros hmacHeader bodyBuffer webhookSecret. unfold validateShopifyWebhookHmac.
  rewrite timingSafeEqual_true, timingSafeEqual_false, timingSafeEqual_throws.
  split; [| split].
  - split; congruence.
  - split; intros [Hl Hne]; split; congruence.
  - split; intros Hl Heq; apply Hl; congruence.
Qed.

(** X14.  In production the route starts [purchaseShippingLabelsHandler]
    only for a request whose header is the digest of its raw body, and then
    answers "ok"; a request with no header, an empty header or a wrong header
    of the digest's length is answered 401 and starts nothing; a non-empty
    header of another length makes the route throw. *)
Theorem production_route_checks_the_signature :
  forall (hmacHeader : option string) (webhookSecret : option string)
         (rawBody : string),
    (forall response body,
        POST JSON_parse digest true hmacHeader webhookSecret rawBody =
          Return (response, Some body) ->
        hmacHeader = Some (digest webhookSecret rawBody) /\
        response = Ok /\ JSON_parse rawBody = Return body) /\
    (hmacHeader = None \/ hmacHeader = Some ""%string \/
     (exists h, hmacHeader = Some h /\
                String.length h = String.length (digest webhookSecret rawBody) /\
                h <> digest webhookSecret rawBody) ->
     POST JSON_parse digest true hmacHeader webhookSecret rawBody =
       Return (Unauthorized, None)) /\
    (forall h, hmacHeader = Some h -> h <> ""%string ->
       String.length h <> String.length (digest webhookSecret rawBody) ->
       exists e,
         POST JSON_parse digest true hmacHeader webhookSecret rawBody = Throw e /\
         constructor e = RangeErrorC).
Proof.
  intros hmacHeader webhookSecret rawBody.
  split; [| split].
  - intros response body H. unfold POST in H.
    destruct hmacHeader as [[| c h] |]; [discriminate | | discriminate].
    unfold bind, validateShopifyWebhookHmac in H.
    destruct (timingSafeEqual (digest webhookSecret rawBody) (String c h))
      as [[|] | e] eqn:Hv; [| discriminate | discriminate].
    apply timingSafeEqual_true in Hv. cbn [negb] in H.
    destruct (JSON_parse rawBody) as [b | e]; [| discriminate].
    injection H as <- <-. rewrite Hv. auto.
  - intros [-> | [-> | (h & -> & Hlen & Hne)]]; [reflexivity | reflexivity |].
    unfold POST. destruct h as [| c h]; [reflexivity |].
    unfold bind, validateShopifyWebhookHmac.
    rewrite (proj2 (timingSafeEqual_false (digest webhookSecret rawBody)
                      (String c h))); [reflexivity |].
    split; [now symmetry | congruence].
  - intros h -> Hnonempty Hlen. unfold POST.
    destruct h as [| c h]; [now destruct Hnonempty |].
    unfold bind, validateShopifyWebhookHmac, timingSafeEqual.
    destruct (Nat.eqb_spec (String.length (digest webhookSecret rawBody))
                           (String.length (String c h))) as [Heq | _];
      [now destruct Hlen | eexists; split; reflexivity].
Qed.

End Route.

Lemma validateShopifyWebhookHmac_outcomes_witness :
  validateShopifyWebhookHmac toy_digest "secretpayload"%string
    "payload"%string (Some "secret"%string) = Return true.
Proof.
  apply (proj1 (@validateShopifyWebhookHmac_outcomes toy_digest
                  "secretpayload"%string "payload"%string
                  (Some "secret"%string))).
  reflexivity.
Defined.

Lemma production_route_checks_the_signature_witness :
  POST toy_parse toy_digest true (Some "secretpaylobe"%string)
       (Some "secret"%string) "payload"%string = Return (Unauthorized, None).
Proof.
  apply (proj1 (proj2 (@production_route_checks_the_signature string toy_parse
                         toy_digest (Some "secretpaylobe"%string)
                         (Some "secret"%string) "payload"%string))).
  right. right. exists "secretpaylobe"%string.
  split; [reflexivity |]. split; [reflexivity | discriminate].
Defined.

End WebhookFacts.
